(** * Movie library store (server-movies.py): model and verified properties

    A shallow embedding of the in-memory movie store.  Python values are
    modelled as follows.

    - [str]: Rocq [string]; every [ascii] stands for the code point of the
      same number (0..255), so [strip] and [lower] follow Python on that
      range.
    - [int]: [Z].  [Optional[T]]: [option T].
    - mutable objects (the record dicts and the genres lists) live in a heap
      and are referred to by address, so that sharing between the store and
      the values handed to callers is visible.
    - [_movies], the module-level dict, is an insertion-ordered association
      list from movie id to the address of the record dict.
    - the results of [uuid.uuid4()] and of each call of [_now_iso()] are
      inputs of the operation that makes the call.
    - [raise ValueError(msg)] is a result [inl (ValueError msg)] next to the
      world as it is at the moment of the raise.
    - [with _lock:] makes each operation one sequential step; the lock itself
      is not modelled. *)

From Stdlib Require Import ZArith NArith String Ascii List Lia.
From Stdlib Require Import Sorting.Sorted Sorting.Permutation.
From stdpp Require Import base list strings gmap sorting.

Open Scope string_scope.
Open Scope Z_scope.

(** ** Python strings *)

Module PyStr.

(** Whitespace as [str.strip()] sees it, for code points below 256:
    TAB..CR, FS..US, SPACE, NEL and NBSP. *)
Definition is_space (c : ascii) : bool :=
  let n := N_of_ascii c in
  ((9 <=? n) && (n <=? 13) || (28 <=? n) && (n <=? 32)
   || (n =? 133) || (n =? 160))%N.

(** [str.lower()] on one code point below 256: A..Z and the Latin-1 capitals
    (all of 192..222 but the multiplication sign 215) move up by 32. *)
Definition lower_char (c : ascii) : ascii :=
  let n := N_of_ascii c in
  if ((65 <=? n) && (n <=? 90)
      || (192 <=? n) && (n <=? 222) && negb (n =? 215))%N
  then ascii_of_N (n + 32) else c.

Fixpoint lower (s : string) : string :=
  match s with
  | EmptyString => EmptyString
  | String c r => String (lower_char c) (lower r)
  end.

Fixpoint lstrip (s : string) : string :=
  match s with
  | EmptyString => EmptyString
  | String c r => if is_space c then lstrip r else s
  end.

Fixpoint rstrip (s : string) : string :=
  match s with
  | EmptyString => EmptyString
  | String c r =>
      match rstrip r with
      | EmptyString => if is_space c then EmptyString else String c EmptyString
      | r' => String c r'
      end
  end.

(** A string [str.lstrip()] has nothing to remove from. *)
Definition lstripped (s : string) : Prop :=
  match s with
  | EmptyString => True
  | String c _ => is_space c = false
  end.

(** [s.strip()] *)
Definition strip (s : string) : string := rstrip (lstrip s).

(** [not s] for a [str] *)
Definition is_empty (s : string) : bool :=
  match s with EmptyString => true | String _ _ => false end.

(** [o or ""] for an [Optional[str]] *)
Definition or_empty (o : option string) : string :=
  match o with Some s => s | None => "" end.

(** [s or None] for a [str] *)
Definition or_None (s : string) : option string :=
  if is_empty s then None else Some s.

(** [str(o)], as an f-string renders an [Optional[str]] *)
Definition format_opt (o : option string) : string :=
  match o with Some s => s | None => "None" end.

Fixpoint startswith (hay needle : string) {struct needle} : bool :=
  match needle, hay with
  | EmptyString, _ => true
  | String _ _, EmptyString => false
  | String a n', String b h' => Ascii.eqb a b && startswith h' n'
  end.

(** [hay.find(needle)]: the lowest index at which [needle] occurs, or -1. *)
Fixpoint find (hay needle : string) : Z :=
  if startswith hay needle then 0
  else match hay with
       | EmptyString => -1
       | String _ h' =>
           let i := find h' needle in
           if i =? -1 then -1 else i + 1
       end.

(** [needle in hay] *)
Definition contains (needle hay : string) : bool :=
  negb (find hay needle =? -1).

End PyStr.
Export PyStr.

(** ** Tuple comparison and [list.sort(key=...)] *)

(** The sort key [(x["title"].lower(), x["year"], x["id"])]; Python compares
    tuples left to right, strings by code point. *)
Definition key : Type := string * Z * string.

Definition key_compare (a b : key) : comparison :=
  let '(t1, y1, i1) := a in
  let '(t2, y2, i2) := b in
  match String.compare t1 t2 with
  | Eq => match Z.compare y1 y2 with
          | Eq => String.compare i1 i2
          | c => c
          end
  | c => c
  end.

Definition key_ltb (a b : key) : bool :=
  match key_compare a b with Lt => true | _ => false end.

Definition key_le (a b : key) : Prop := key_ltb b a = false.

Section PySort.
Context {A : Type} (kf : A -> key).

(** [x] goes in front of the first element that is not smaller than it:
    elements with equal keys keep the order they arrive in. *)
Fixpoint sort_insert (x : A) (l : list A) : list A :=
  match l with
  | [] => [x]
  | y :: l' =>
      if key_ltb (kf y) (kf x) then y :: sort_insert x l' else x :: l
  end.

(** [l.sort(key=kf)]: Python's sort is stable and compares keys with [<]
    only.  The sorted and stable arrangement of a list is computed here by
    insertion. *)
Definition py_sort (l : list A) : list A := foldr sort_insert [] l.

(** Key order, weak and strict, on the elements themselves. *)
Definition le_by (x y : A) : Prop := key_le (kf x) (kf y).
Definition lt_by (x y : A) : Prop := key_ltb (kf x) (kf y) = true.
End PySort.

(** ** Records, heap and world *)

(** Addresses of heap objects. *)
Abbreviation addr := nat.

(** The contents of one record dict.  [m_genres] is the address of the list
    object bound to the key ["genres"]. *)
Record movie : Type := Movie {
  m_id : string;
  m_title : string;
  m_year : Z;
  m_genres : addr;
  m_director : option string;
  m_borrowed : bool;
  m_borrowed_by : option string;
  m_borrowed_at : option string;
  m_created_at : string;
  m_updated_at : string
}.

#[global] Instance movie_inhabited : Inhabited movie :=
  populate (Movie "" "" 0 0%nat None false None None "" "").

(** Item assignments [m[k] = v] on the contents of a dict. *)
Definition set_title (v : string) (m : movie) : movie :=
  Movie (m_id m) v (m_year m) (m_genres m) (m_director m) (m_borrowed m)
        (m_borrowed_by m) (m_borrowed_at m) (m_created_at m) (m_updated_at m).
Definition set_year (v : Z) (m : movie) : movie :=
  Movie (m_id m) (m_title m) v (m_genres m) (m_director m) (m_borrowed m)
        (m_borrowed_by m) (m_borrowed_at m) (m_created_at m) (m_updated_at m).
Definition set_genres (v : addr) (m : movie) : movie :=
  Movie (m_id m) (m_title m) (m_year m) v (m_director m) (m_borrowed m)
        (m_borrowed_by m) (m_borrowed_at m) (m_created_at m) (m_updated_at m).
Definition set_director (v : option string) (m : movie) : movie :=
  Movie (m_id m) (m_title m) (m_year m) (m_genres m) v (m_borrowed m)
        (m_borrowed_by m) (m_borrowed_at m) (m_created_at m) (m_updated_at m).
Definition set_borrowed (v : bool) (m : movie) : movie :=
  Movie (m_id m) (m_title m) (m_year m) (m_genres m) (m_director m) v
        (m_borrowed_by m) (m_borrowed_at m) (m_created_at m) (m_updated_at m).
Definition set_borrowed_by (v : option string) (m : movie) : movie :=
  Movie (m_id m) (m_title m) (m_year m) (m_genres m) (m_director m)
        (m_borrowed m) v (m_borrowed_at m) (m_created_at m) (m_updated_at m).
Definition set_borrowed_at (v : option string) (m : movie) : movie :=
  Movie (m_id m) (m_title m) (m_year m) (m_genres m) (m_director m)
        (m_borrowed m) (m_borrowed_by m) v (m_created_at m) (m_updated_at m).
Definition set_updated_at (v : string) (m : movie) : movie :=
  Movie (m_id m) (m_title m) (m_year m) (m_genres m) (m_director m)
        (m_borrowed m) (m_borrowed_by m) (m_borrowed_at m) (m_created_at m) v.

(** The world: the dict objects and the list objects allocated so far (an
    address is an index; objects are never freed), and the global
    [_movies]. *)
Record world : Type := World {
  dicts : list movie;
  lists : list (list string);
  _movies : list (string * addr)
}.

(** [_movies = {}] at import time. *)
Definition init : world := World [] [] [].

(** Contents of the dict, resp. list, at an address.  Python has no dangling
    reference; outside the allocated range the lookups give the inhabitant,
    resp. the empty list. *)
Definition dict_at (w : world) (a : addr) : movie := dicts w !!! a.
Definition list_at (w : world) (a : addr) : list string :=
  default [] (lists w !! a).

(** *** The insertion-ordered dict [_movies] *)

Fixpoint dict_get (k : string) (d : list (string * addr)) : option addr :=
  match d with
  | [] => None
  | (k', v) :: d' => if String.eqb k k' then Some v else dict_get k d'
  end.

(** [d[k] = v]: an existing key keeps its position, a new one goes last. *)
Fixpoint dict_set (k : string) (v : addr) (d : list (string * addr))
  : list (string * addr) :=
  match d with
  | [] => [(k, v)]
  | (k', v') :: d' =>
      if String.eqb k k' then (k, v) :: d' else (k', v') :: dict_set k v d'
  end.

(** [del d[k]] *)
Fixpoint dict_del (k : string) (d : list (string * addr))
  : list (string * addr) :=
  match d with
  | [] => []
  | (k', v') :: d' =>
      if String.eqb k k' then d' else (k', v') :: dict_del k d'
  end.

(** [list(d.values())] *)
Definition dict_values (d : list (string * addr)) : list addr := map snd d.

(** ** The monad of operations: state, and exceptions that keep the state *)

Inductive exn : Type := ValueError (msg : string).

Definition M (A : Type) : Type := world -> (exn + A) * world.

Definition ret {A} (x : A) : M A := fun w => (inr x, w).

Definition bind {A B} (c : M A) (k : A -> M B) : M B :=
  fun w => match c w with
           | (inl e, w') => (inl e, w')
           | (inr x, w') => k x w'
           end.

Definition raise {A} (e : exn) : M A := fun w => (inl e, w).

Definition gets {A} (f : world -> A) : M A := fun w => (inr (f w), w).

Definition modify (f : world -> world) : M unit := fun w => (inr tt, f w).

Declare Scope py_scope.
Delimit Scope py_scope with py.
Notation "x <- c ;; k" := (bind c (fun x => k))
  (at level 100, c at next level, right associativity) : py_scope.
Notation "c ;; k" := (bind c (fun _ => k))
  (at level 100, right associativity) : py_scope.
Open Scope py_scope.

Fixpoint mapM {A B} (f : A -> M B) (l : list A) : M (list B) :=
  match l with
  | [] => ret []
  | x :: l' => y <- f x ;; ys <- mapM f l' ;; ret (y :: ys)
  end.

(** Allocation of a fresh dict, resp. list, object. *)
Definition new_dict (m : movie) : M addr :=
  fun w => (inr (length (dicts w)),
            World (dicts w ++ [m])%list (lists w) (_movies w)).
Definition new_list (l : list string) : M addr :=
  fun w => (inr (length (lists w)),
            World (dicts w) (lists w ++ [l])%list (_movies w)).

(** [m[k] = v] on the dict object at address [m]. *)
Definition setitem (m : addr) (f : movie -> movie) : M unit :=
  modify (fun w => World (alter f m (dicts w)) (lists w) (_movies w)).

(** In-place mutation of a list object, as a holder of its address can do
    ([l.append(x)]). *)
Definition list_append (l : addr) (x : string) : M unit :=
  modify (fun w => World (dicts w) (alter (fun v => (v ++ [x])%list) l (lists w))
                         (_movies w)).

(** ** The store's helpers *)

(** The loop of [_normalize_genres], with its two local variables. *)
Fixpoint normalize_loop (genres : list string) (seen : gset string)
    (out : list string) : list string :=
  match genres with
  | [] => out
  | g :: rest =>
      let g2 := strip g in
      if is_empty g2 then normalize_loop rest seen out
      else
        let key := lower g2 in
        if decide (key ∈ seen) then normalize_loop rest seen out
        else normalize_loop rest ({[key]} ∪ seen) (out ++ [g2])%list
  end.

(** [if not genres: return []] covers both [None] and the empty list. *)
Definition _normalize_genres (genres : option (list string)) : list string :=
  match genres with
  | None | Some [] => []
  | Some gs => normalize_loop gs ∅ []
  end.

(** [_movies.get(movie_id)], and the raise when it gives nothing.  (A record
    dict is never empty, so [not m] is [m is None].) *)
Definition _require_movie (movie_id : string) : M addr :=
  m <- gets (fun w => dict_get movie_id (_movies w)) ;;
  match m with
  | None => raise (ValueError ("Movie not found: " ++ movie_id))
  | Some m => ret m
  end.

(** [dict(m)]: a new dict object with the same items; the values, among them
    the address of the genres list, are copied as they are. *)
Definition _movie_public (m : addr) : M addr :=
  c <- gets (fun w => dict_at w m) ;;
  new_dict c.

(** [lambda x: (x["title"].lower(), x["year"], x["id"])] *)
Definition sort_key (w : world) (x : addr) : key :=
  let r := dict_at w x in (lower (m_title r), m_year r, m_id r).

(** ** The eight operations *)

(** [uuid4] is the result of [str(uuid.uuid4())], [now1] and [now2] those of
    the two calls of [_now_iso()], in the order they are made.  The
    parameter [title] is a [str], on which [title or ""] is [title]. *)
Definition add_movie (uuid4 now1 now2 : string)
    (title : string) (year : Z) (genres : option (list string))
    (director : option string) : M addr :=
  let title := strip title in
  if is_empty title then raise (ValueError "title is required.")
  else if (year <? 1878) || (year >? 3000)
  then raise (ValueError "year looks invalid.")
  else
    let movie_id := uuid4 in
    gl <- new_list (_normalize_genres genres) ;;
    record <- new_dict
      (Movie movie_id title year gl (or_None (strip (or_empty director)))
             false None None now1 now2) ;;
    modify (fun w => World (dicts w) (lists w)
                           (dict_set movie_id record (_movies w))) ;;
    _movie_public record.

Definition get_movie (movie_id : string) : M addr :=
  m <- _require_movie movie_id ;;
  _movie_public m.

Definition list_movies (only_available : bool) : M (list addr) :=
  items <- gets (fun w => dict_values (_movies w)) ;;
  items <- gets (fun w =>
    if only_available
    then List.filter (fun m => negb (m_borrowed (dict_at w m))) items
    else items) ;;
  items <- gets (fun w => py_sort (sort_key w) items) ;;
  mapM _movie_public items.

Definition search_movies (query : option string) (year : option Z)
    (genre director : option string) (only_available : bool)
  : M (list addr) :=
  let q := lower (strip (or_empty query)) in
  let g := lower (strip (or_empty genre)) in
  let d := lower (strip (or_empty director)) in
  results <- gets (fun w => dict_values (_movies w)) ;;
  results <- gets (fun w =>
    if only_available
    then List.filter (fun m => negb (m_borrowed (dict_at w m))) results
    else results) ;;
  results <- gets (fun w =>
    if negb (is_empty q)
    then List.filter (fun m => contains q (lower (m_title (dict_at w m))))
                     results
    else results) ;;
  results <- gets (fun w =>
    match year with
    | Some year =>
        List.filter (fun m => m_year (dict_at w m) =? year) results
    | None => results
    end) ;;
  results <- gets (fun w =>
    if negb (is_empty g)
    then List.filter
           (fun m => existsb (fun gg => String.eqb g (lower gg))
                             (list_at w (m_genres (dict_at w m))))
           results
    else results) ;;
  results <- gets (fun w =>
    if negb (is_empty d)
    then List.filter
           (fun m => negb (find (lower (or_empty (m_director (dict_at w m))))
                                d =? -1))
           results
    else results) ;;
  results <- gets (fun w => py_sort (sort_key w) results) ;;
  mapM _movie_public results.

(** [now] is the result of the one call of [_now_iso()]. *)
Definition update_movie (now : string) (movie_id : string)
    (title : option string) (year : option Z)
    (genres : option (list string)) (director : option string) : M addr :=
  m <- _require_movie movie_id ;;
  match title with
  | Some title =>
      let t := strip title in
      if is_empty t then raise (ValueError "title cannot be empty.")
      else setitem m (set_title t)
  | None => ret tt
  end ;;
  match year with
  | Some year =>
      let y := year in
      if (y <? 1878) || (y >? 3000)
      then raise (ValueError "year looks invalid.")
      else setitem m (set_year y)
  | None => ret tt
  end ;;
  match genres with
  | Some genres =>
      gl <- new_list (_normalize_genres (Some genres)) ;;
      setitem m (set_genres gl)
  | None => ret tt
  end ;;
  match director with
  | Some director =>
      let d := strip director in
      setitem m (set_director (or_None d))
  | None => ret tt
  end ;;
  setitem m (set_updated_at now) ;;
  _movie_public m.

(** The returned [{"deleted": True, "id": movie_id}] is the pair of its two
    values. *)
Definition delete_movie (movie_id : string) : M (bool * string) :=
  _require_movie movie_id ;;
  modify (fun w => World (dicts w) (lists w) (dict_del movie_id (_movies w))) ;;
  ret (true, movie_id).

(** [now1] and [now2] are the results of the two calls of [_now_iso()]; the
    parameter [borrower] is a [str]. *)
Definition borrow_movie (now1 now2 : string) (movie_id borrower : string)
  : M addr :=
  let borrower := strip borrower in
  if is_empty borrower then raise (ValueError "borrower is required.")
  else
    m <- _require_movie movie_id ;;
    r <- gets (fun w => dict_at w m) ;;
    if m_borrowed r
    then raise (ValueError ("Movie is already borrowed by "
                            ++ format_opt (m_borrowed_by r) ++ "."))
    else
      setitem m (set_borrowed true) ;;
      setitem m (set_borrowed_by (Some borrower)) ;;
      setitem m (set_borrowed_at (Some now1)) ;;
      setitem m (set_updated_at now2) ;;
      _movie_public m.

Definition return_movie (now : string) (movie_id : string) : M addr :=
  m <- _require_movie movie_id ;;
  r <- gets (fun w => dict_at w m) ;;
  if negb (m_borrowed r) then raise (ValueError "Movie is not borrowed.")
  else
    setitem m (set_borrowed false) ;;
    setitem m (set_borrowed_by None) ;;
    setitem m (set_borrowed_at None) ;;
    setitem m (set_updated_at now) ;;
    _movie_public m.

(** ** Calls and reachable worlds *)

Inductive call : Type :=
| Add (uuid4 now1 now2 title : string) (year : Z)
      (genres : option (list string)) (director : option string)
| Get (movie_id : string)
| ListMovies (only_available : bool)
| Search (query : option string) (year : option Z)
         (genre director : option string) (only_available : bool)
| Update (now movie_id : string) (title : option string) (year : option Z)
         (genres : option (list string)) (director : option string)
| Delete (movie_id : string)
| Borrow (now1 now2 movie_id borrower : string)
| Return (now movie_id : string).

(** What a call hands back: one record, a list of records, or the
    confirmation of a deletion. *)
Inductive answer : Type :=
| ARecord (a : addr)
| ARecords (l : list addr)
| ADeleted (deleted : bool) (movie_id : string).

Definition run (c : call) : M answer :=
  match c with
  | Add u n1 n2 t y g d => a <- add_movie u n1 n2 t y g d ;; ret (ARecord a)
  | Get i => a <- get_movie i ;; ret (ARecord a)
  | ListMovies oa => l <- list_movies oa ;; ret (ARecords l)
  | Search q y g d oa => l <- search_movies q y g d oa ;; ret (ARecords l)
  | Update n i t y g d => a <- update_movie n i t y g d ;; ret (ARecord a)
  | Delete i => r <- delete_movie i ;; ret (ADeleted (fst r) (snd r))
  | Borrow n1 n2 i b => a <- borrow_movie n1 n2 i b ;; ret (ARecord a)
  | Return n i => a <- return_movie n i ;; ret (ARecord a)
  end.

(** The record dicts a caller holds after a call. *)
Definition returned (r : answer) : list addr :=
  match r with
  | ARecord a => [a]
  | ARecords l => l
  | ADeleted _ _ => []
  end.

(** The worlds the program can be in: [init], and whatever a call leaves
    behind, whether it returns or raises. *)
Inductive reachable : world -> Prop :=
| reachable_init : reachable init
| reachable_call w c : reachable w -> reachable (snd (run c w)).

(** ** Observations *)

(** The record stored under an id. *)
Definition stored (w : world) (movie_id : string) : option movie :=
  dict_at w <$> dict_get movie_id (_movies w).

(** The records of the collection, in the order of [_movies.values()]. *)
Definition records (w : world) : list movie :=
  map (dict_at w) (dict_values (_movies w)).

(** The genres of a record: the contents of its list object. *)
Definition genres_of (w : world) (m : movie) : list string :=
  list_at w (m_genres m).

(** All there is to see of the store: every id with its record and the
    contents of the record's genres list. *)
Definition store_view (w : world) : list (string * movie * list string) :=
  map (fun e => (fst e, dict_at w (snd e), genres_of w (dict_at w (snd e))))
      (_movies w).

Definition movie_key (m : movie) : key :=
  (lower (m_title m), m_year m, m_id m).

(** What a caller can do to a record dict it was handed: assign to one of its
    keys, or mutate the list it finds under ["genres"]. *)
Inductive mutation : Type :=
| Assign (f : movie -> movie)
| GenresAppend (x : string).

Definition mutate (a : addr) (c : mutation) : M unit :=
  match c with
  | Assign f => setitem a f
  | GenresAppend x =>
      g <- gets (fun w => m_genres (dict_at w a)) ;; list_append g x
  end.

(** The checkout fields of a record agree. *)
Definition checkout_ok (m : movie) : Prop :=
  (m_borrowed m = true <->
     is_Some (m_borrowed_by m) /\ is_Some (m_borrowed_at m)) /\
  (m_borrowed m = false <->
     m_borrowed_by m = None /\ m_borrowed_at m = None).

(** Invariant of the reachable worlds: the store holds allocated dicts only,
    each filed under its own id, ids are not repeated, and the checkout
    fields of every dict agree. *)
Record wf (w : world) : Prop := Wf {
  wf_alloc : Forall (fun a => (a < length (dicts w))%nat)
                    (dict_values (_movies w));
  wf_ids : Forall (fun e => m_id (dict_at w (snd e)) = fst e) (_movies w);
  wf_keys : NoDup (map fst (_movies w));
  wf_checkout : Forall checkout_ok (dicts w)
}.

(** ** The error kinds of the specification

    The code raises [ValueError] at every site; the specification tells four
    kinds of failure apart.  A kind is recognised here by the message of the
    raise site. *)
Inductive error_kind : Type :=
| InvalidArgument | NotFound | Conflict | InvalidState.

Definition kind_of (e : exn) : option error_kind :=
  let 'ValueError msg := e in
  if existsb (String.eqb msg)
       ["title is required."; "title cannot be empty.";
        "year looks invalid."; "borrower is required."]
  then Some InvalidArgument
  else if startswith msg "Movie not found: " then Some NotFound
  else if startswith msg "Movie is already borrowed by " then Some Conflict
  else if String.eqb msg "Movie is not borrowed." then Some InvalidState
  else None.

(** ** The search filters, in the words of the specification *)

(** [pre ++ needle ++ post = hay] for some [pre] and [post]. *)
Definition substring_of (needle hay : string) : Prop :=
  exists pre post, hay = pre ++ needle ++ post.

(** A filter string as the search uses it: trimmed, and not provided when
    nothing is left. *)
Definition filter_of (f : option string) : option string :=
  match f with
  | Some s => if is_empty (strip s) then None else Some (strip s)
  | None => None
  end.

(** A filter string read to the letter: not provided when blank, else as it
    was given. *)
Definition literal_filter_of (f : option string) : option string :=
  match f with
  | Some s => if is_empty (strip s) then None else Some s
  | None => None
  end.

Section Matches.
Variable filter : option string -> option string.
Variables (w : world) (query : option string) (year : option Z)
          (genre director : option string) (only_available : bool).

(** Every provided filter holds of the record [m]. *)
Definition matches_with (m : movie) : Prop :=
  (only_available = true -> m_borrowed m = false) /\
  (forall q, filter query = Some q ->
             substring_of (lower q) (lower (m_title m))) /\
  (forall y, year = Some y -> m_year m = y) /\
  (forall g, filter genre = Some g ->
             exists gg, In gg (genres_of w m) /\ lower gg = lower g) /\
  (forall d, filter director = Some d ->
             exists dir, m_director m = Some dir /\
                         substring_of (lower d) (lower dir)).
End Matches.

Definition matches := matches_with filter_of.
Definition literal_matches := matches_with literal_filter_of.

(** ** Outcomes *)

(** The outcome of a run is an exception of the given kind. *)
Definition raises {A} (r : (exn + A) * world) (k : error_kind) : Prop :=
  exists e, fst r = inl e /\ kind_of e = Some k.

(** The outcome of a run is a value. *)
Definition returns {A} (r : (exn + A) * world) : Prop :=
  exists x, fst r = inr x.

(** A record dict handed to a caller is a shallow copy: an object the store
    does not refer to, with the items of a dict the store does refer to. *)
Definition shallow_copy (w : world) (a : addr) : Prop :=
  (a ∉ dict_values (_movies w)) /\
  exists s, s ∈ dict_values (_movies w) /\ dict_at w a = dict_at w s.

(** ** Sample worlds *)

(** One movie. *)
Definition sample_one : world :=
  snd (run (Add "id1" "2024-05-01T10:00:00.000001+00:00"
                "2024-05-01T10:00:00.000002+00:00"
                "Dune" 2021 (Some ["Sci-Fi"]) None) init).

(** The movie lent to Alice. *)
Definition sample_borrowed : world :=
  snd (run (Borrow "2024-05-02T09:00:00.000001+00:00"
                   "2024-05-02T09:00:00.000002+00:00" "id1" "Alice")
           sample_one).

(** Titles b, A, a of the years 2000, 1999, 2001, added in this order under
    ids that sort the other way round. *)
Definition sample_three : world :=
  snd (run (Add "id1" "t5" "t6" "a" 2001 None None)
      (snd (run (Add "id2" "t3" "t4" "A" 1999 None None)
      (snd (run (Add "id3" "t1" "t2" "b" 2000 None None) init))))).

(** ** Devices of the proofs *)

(** A computation keeps the invariant, whether it returns or raises. *)
Definition preserves {A} (c : M A) : Prop :=
  forall w, wf w -> wf (snd (c w)).

(** Partial correctness of a computation: from a world in [P], a run that
    returns [x] ends in a world in [Q x]. *)
Definition hoare {A} (P : world -> Prop) (c : M A)
    (Q : A -> world -> Prop) : Prop :=
  forall w, P w -> forall x w', c w = (inr x, w') -> Q x w'.

(** The store refers to allocated dicts only. *)
Definition alloc_ok (w : world) : Prop :=
  Forall (fun a => (a < length (dicts w))%nat) (dict_values (_movies w)).

(** The store is in order and refers to the dict at [m]. *)
Definition refers_to (m : addr) (w : world) : Prop :=
  alloc_ok w /\ m ∈ dict_values (_movies w).

(** The five tests of [search_movies] on one address, with [q], [g] and [d]
    the trimmed lower-case filters. *)
Definition keeps (w : world) (q : string) (year : option Z) (g d : string)
    (only_available : bool) (m : addr) : bool :=
  (if only_available then negb (m_borrowed (dict_at w m)) else true)
  && (if negb (is_empty q)
      then contains q (lower (m_title (dict_at w m))) else true)
  && (match year with
      | Some year => m_year (dict_at w m) =? year
      | None => true
      end)
  && (if negb (is_empty g)
      then existsb (fun gg => String.eqb g (lower gg))
                   (list_at w (m_genres (dict_at w m)))
      else true)
  && (if negb (is_empty d)
      then negb (find (lower (or_empty (m_director (dict_at w m)))) d =? -1)
      else true).

(** The same five tests on the record itself: [keeps w q year g d oa m] is
    [passes w q year g d oa (dict_at w m)]. *)
Definition passes (w : world) (q : string) (year : option Z) (g d : string)
    (only_available : bool) (r : movie) : bool :=
  (if only_available then negb (m_borrowed r) else true)
  && (if negb (is_empty q) then contains q (lower (m_title r)) else true)
  && (match year with
      | Some year => m_year r =? year
      | None => true
      end)
  && (if negb (is_empty g)
      then existsb (fun gg => String.eqb g (lower gg))
                   (list_at w (m_genres r))
      else true)
  && (if negb (is_empty d)
      then negb (find (lower (or_empty (m_director r))) d =? -1)
      else true).

(** ** Devices for the properties of whole calls *)

(** From a world in [P], a run that returns [x] ends in a world in [Q x],
    and one that raises ends in a world in [E]. *)
Definition always {A} (P : world -> Prop) (c : M A)
    (Q : A -> world -> Prop) (E : world -> Prop) : Prop :=
  forall w, P w ->
    match c w with
    | (inr x, w') => Q x w'
    | (inl _, w') => E w'
    end.

(** A text as the store writes it: trimmed, and not empty. *)
Definition valid_text (s : string) : Prop := strip s = s /\ s <> "".

(** The fields of a record as [add_movie], [update_movie] and
    [borrow_movie] write them. *)
Definition valid_record (m : movie) : Prop :=
  valid_text (m_title m)
  /\ 1878 <= m_year m <= 3000
  /\ (forall d, m_director m = Some d -> valid_text d)
  /\ (forall b, m_borrowed_by m = Some b -> valid_text b).

(** A genres list as [_normalize_genres] leaves it. *)
Definition normal_genres (l : list string) : Prop :=
  Forall valid_text l /\ NoDup (map lower l).

(** Second invariant of the reachable worlds: every dict holds valid
    fields and refers to an allocated genres list, and every list is
    normal. *)
Record sound (w : world) : Prop := Sound {
  sound_records : Forall valid_record (dicts w);
  sound_genres : Forall normal_genres (lists w);
  sound_genres_alloc :
    Forall (fun m => (m_genres m < length (lists w))%nat) (dicts w)
}.

(** The second invariant, with an allocated address to work on. *)
Definition sound_at (m : addr) (w : world) : Prop :=
  sound w /\ (m < length (dicts w))%nat.

(** Two states of a record with the same id and the same [created_at]. *)
Definition same_identity (r r' : movie) : Prop :=
  m_id r' = m_id r /\ m_created_at r' = m_created_at r.

(** From [w0] to [w] every allocated dict is still there with its identity,
    and unchanged unless its address is in [changed]; every allocated list
    is unchanged. *)
Definition evolves (changed : addr -> Prop) (w0 w : world) : Prop :=
  (forall a x, dicts w0 !! a = Some x ->
     exists x', dicts w !! a = Some x'
                /\ same_identity x x' /\ (~ changed a -> x' = x))
  /\ (forall l x, lists w0 !! l = Some x -> lists w !! l = Some x).

(** The id a call is about, if any. *)
Definition target (c : call) : option string :=
  match c with
  | Add u _ _ _ _ _ _ => Some u
  | Get _ | ListMovies _ | Search _ _ _ _ _ => None
  | Update _ i _ _ _ _ => Some i
  | Delete i => Some i
  | Borrow _ _ i _ => Some i
  | Return _ i => Some i
  end.

(** The dicts a call may assign to: the one stored under the id that
    [update_movie], [borrow_movie] or [return_movie] is called with. *)
Definition changed (c : call) (w0 : world) (a : addr) : Prop :=
  match c with
  | Update _ i _ _ _ _ | Borrow _ _ i _ | Return _ i =>
      dict_get i (_movies w0) = Some a
  | _ => False
  end.

(** The call puts a new record under the id, or removes the record of the
    id. *)
Definition replaces (c : call) (movie_id : string) : Prop :=
  match c with
  | Add u _ _ _ _ _ _ => u = movie_id
  | Delete i => i = movie_id
  | _ => False
  end.

(** [w] has the ids of [w0] at the addresses of [w0], and its heap has
    evolved from that of [w0]. *)
Definition evolved (ch : addr -> Prop) (w0 w : world) : Prop :=
  evolves ch w0 w /\ _movies w = _movies w0.

(** As [evolved], in the course of a call that may assign to the dict at
    [m]. *)
Definition evolved_at (ch : addr -> Prop) (w0 : world) (m : addr)
    (w : world) : Prop :=
  evolved ch w0 w /\ ch m.

(** Unfolding of the monad's combinators and of the heap primitives. *)
Ltac run_monad :=
  repeat (unfold bind, ret, raise, gets, modify, new_list, new_dict, setitem,
            list_append, _movie_public, _require_movie);
  cbn [dicts lists _movies fst snd].

(** * Properties *)

(** ** Strings *)

Section StringFacts.

Lemma is_empty_true s : is_empty s = true <-> s = "".
Proof. destruct s; simpl; split; congruence. Qed.

Lemma is_empty_false s : is_empty s = false <-> s <> "".
Proof. destruct s; simpl; split; congruence. Qed.

Lemma is_empty_lower s : is_empty (lower s) = is_empty s.
Proof. by destruct s. Qed.

Lemma lstrip_lstripped s : lstripped (lstrip s).
Proof.
  induction s as [|c r IH]; simpl; [done|].
  destruct (is_space c) eqn:E; [done|]. simpl. exact E.
Qed.

Lemma lstrip_id s : lstripped s -> lstrip s = s.
Proof. destruct s as [|c r]; simpl; [done|]. by intros ->. Qed.

Lemma rstrip_lstripped s : lstripped s -> lstripped (rstrip s).
Proof.
  destruct s as [|c r]; simpl; [done|]. intros E.
  destruct (rstrip r); simpl; by rewrite ?E.
Qed.

Lemma rstrip_idemp s : rstrip (rstrip s) = rstrip s.
Proof.
  induction s as [|c r IH]; simpl; [done|].
  destruct (rstrip r) as [|c' r'] eqn:E.
  - destruct (is_space c) eqn:Ec; simpl; by rewrite ?Ec.
  - change (rstrip (String c (String c' r')))
      with (match rstrip (String c' r') with
            | EmptyString =>
                if is_space c then EmptyString else String c EmptyString
            | r0 => String c r0
            end).
    by rewrite IH.
Qed.

(** Stripping a stripped string leaves it as it is. *)
Lemma strip_idemp s : strip (strip s) = strip s.
Proof.
  unfold strip.
  rewrite (lstrip_id (rstrip (lstrip s))).
  - apply rstrip_idemp.
  - apply rstrip_lstripped, lstrip_lstripped.
Qed.

Lemma startswith_spec hay needle :
  startswith hay needle = true <-> exists post, hay = needle ++ post.
Proof.
  revert hay. induction needle as [|a n IH]; intros hay; simpl.
  - split; [intros _; by exists hay | done].
  - destruct hay as [|b h].
    + split; [done | intros [post H]; discriminate].
    + rewrite andb_true_iff, Ascii.eqb_eq, IH. split.
      * intros [-> [post ->]]. by exists post.
      * intros [post H]. injection H as -> ->. eauto.
Qed.

Lemma find_lower_bound hay needle : -1 <= find hay needle.
Proof.
  induction hay as [|c h IH]; simpl.
  - destruct (startswith "" needle); lia.
  - destruct (startswith (String c h) needle); [lia|].
    destruct (Z.eqb_spec (find h needle) (-1)); lia.
Qed.

(** [find] misses exactly when the needle occurs nowhere. *)
Lemma find_spec hay needle :
  find hay needle <> -1 <-> substring_of needle hay.
Proof.
  induction hay as [|c h IH].
  - simpl. destruct (startswith "" needle) eqn:E.
    + split; [intros _ | lia].
      apply startswith_spec in E as [post E]. by exists "", post.
    + split; [lia|]. intros ([|? ?] & post & H); [|discriminate].
      simpl in H. assert (startswith "" needle = true); [|congruence].
      apply startswith_spec. eauto.
  - simpl. destruct (startswith (String c h) needle) eqn:E.
    + split; [intros _ | lia].
      apply startswith_spec in E as [post E]. by exists "", post.
    + pose proof (find_lower_bound h needle) as Hlb.
      destruct (Z.eqb_spec (find h needle) (-1)) as [Hm|Hm].
      * split; [lia|]. intros ([|c' pre] & post & H); simpl in H.
        -- assert (startswith (String c h) needle = true); [|congruence].
           apply startswith_spec. eauto.
        -- injection H as -> ->. exfalso. apply IH; [|exact Hm].
           by exists pre, post.
      * split; [intros _ | lia].
        apply IH in Hm as (pre & post & ->). by exists (String c pre), post.
Qed.

Lemma contains_spec needle hay :
  contains needle hay = true <-> substring_of needle hay.
Proof.
  unfold contains. rewrite negb_true_iff, Z.eqb_neq. apply find_spec.
Qed.

End StringFacts.

(** ** The order on sort keys *)

Section KeyOrder.

Lemma ascii_compare_refl c : (c ?= c)%char = Eq.
Proof. unfold Ascii.compare. apply N.compare_refl. Qed.

Lemma ascii_compare_lt_trans a b c :
  (a ?= b)%char = Lt -> (b ?= c)%char = Lt -> (a ?= c)%char = Lt.
Proof.
  unfold Ascii.compare. rewrite !N.compare_lt_iff. apply N.lt_trans.
Qed.

Lemma string_compare_refl s : (s ?= s)%string = Eq.
Proof. induction s; simpl; [done|]. by rewrite ascii_compare_refl. Qed.

Lemma string_compare_lt_trans s1 s2 s3 :
  (s1 ?= s2)%string = Lt -> (s2 ?= s3)%string = Lt ->
  (s1 ?= s3)%string = Lt.
Proof.
  revert s2 s3. induction s1 as [|a s1 IH]; intros [|b s2] [|c s3];
    simpl; try done.
  destruct (a ?= b)%char eqn:Eab; try done;
    destruct (b ?= c)%char eqn:Ebc; try done; intros H12 H23.
  - apply Ascii.compare_eq_iff in Eab, Ebc. subst.
    rewrite ascii_compare_refl. eauto.
  - apply Ascii.compare_eq_iff in Eab. subst. by rewrite Ebc.
  - apply Ascii.compare_eq_iff in Ebc. subst. by rewrite Eab.
  - by rewrite (ascii_compare_lt_trans a b c).
Qed.

Lemma key_compare_refl k : key_compare k k = Eq.
Proof.
  destruct k as [[t y] i]. simpl.
  by rewrite string_compare_refl, Z.compare_refl, string_compare_refl.
Qed.

Lemma key_compare_antisym a b : key_compare a b = CompOpp (key_compare b a).
Proof.
  destruct a as [[t1 y1] i1], b as [[t2 y2] i2]. simpl.
  rewrite (String.compare_antisym t1 t2), (Z.compare_antisym y2 y1),
    (String.compare_antisym i1 i2).
  by destruct (t2 ?= t1)%string, (y2 ?= y1), (i2 ?= i1)%string.
Qed.

Lemma key_compare_eq a b : key_compare a b = Eq -> a = b.
Proof.
  destruct a as [[t1 y1] i1], b as [[t2 y2] i2]. simpl.
  destruct (t1 ?= t2)%string eqn:Et; try done.
  destruct (y1 ?= y2) eqn:Ey; try done. intros Ei.
  apply String.compare_eq_iff in Et, Ei. apply Z.compare_eq in Ey.
  by subst.
Qed.

Lemma key_compare_lt_trans a b c :
  key_compare a b = Lt -> key_compare b c = Lt -> key_compare a c = Lt.
Proof.
  destruct a as [[t1 y1] i1], b as [[t2 y2] i2], c as [[t3 y3] i3]. simpl.
  destruct (t1 ?= t2)%string eqn:E12; try done;
    destruct (t2 ?= t3)%string eqn:E23; try done;
    try (apply String.compare_eq_iff in E12; subst t2);
    try (apply String.compare_eq_iff in E23; subst t3);
    rewrite ?E12, ?E23, ?string_compare_refl; try done.
  - destruct (y1 ?= y2) eqn:F12; try done;
      destruct (y2 ?= y3) eqn:F23; try done;
      try (apply Z.compare_eq in F12; subst y2);
      try (apply Z.compare_eq in F23; subst y3);
      rewrite ?F12, ?F23, ?Z.compare_refl; try done.
    + apply string_compare_lt_trans.
    + intros _ _. rewrite Z.compare_lt_iff in *. 
      assert (y1 < y3) as H by lia. by apply Z.compare_lt_iff in H as ->.
  - by rewrite (string_compare_lt_trans t1 t2 t3).
Qed.

Lemma key_ltb_lt a b : key_ltb a b = true <-> key_compare a b = Lt.
Proof. unfold key_ltb. destruct (key_compare a b); split; congruence. Qed.

Lemma key_le_alt a b : key_le a b <-> key_compare a b <> Gt.
Proof.
  unfold key_le, key_ltb. rewrite (key_compare_antisym a b).
  destruct (key_compare b a); simpl; split; congruence.
Qed.

Lemma key_le_refl a : key_le a a.
Proof. apply key_le_alt. by rewrite key_compare_refl. Qed.

Lemma key_le_total a b : key_le a b \/ key_le b a.
Proof.
  rewrite !key_le_alt, (key_compare_antisym b a).
  destruct (key_compare a b); simpl; auto.
Qed.

Lemma key_le_antisym a b : key_le a b -> key_le b a -> a = b.
Proof.
  rewrite !key_le_alt, (key_compare_antisym b a). intros H1 H2.
  apply key_compare_eq. destruct (key_compare a b); simpl in *; congruence.
Qed.

Lemma key_le_trans a b c : key_le a b -> key_le b c -> key_le a c.
Proof.
  rewrite !key_le_alt. intros H1 H2.
  destruct (key_compare a b) eqn:E1; [| |done].
  - apply key_compare_eq in E1. by subst.
  - destruct (key_compare b c) eqn:E2; [| |done].
    + apply key_compare_eq in E2. subst. by rewrite E1.
    + by rewrite (key_compare_lt_trans a b c).
Qed.

Lemma key_le_ne_lt a b : key_le a b -> a <> b -> key_ltb a b = true.
Proof.
  rewrite key_le_alt, key_ltb_lt. intros H1 H2.
  destruct (key_compare a b) eqn:E; [|done|done].
  by apply key_compare_eq in E.
Qed.

End KeyOrder.

(** ** [list.sort] *)

Section PySortFacts.
Context {A : Type} (kf : A -> key).

Lemma sort_insert_perm x l : sort_insert kf x l ≡ₚ x :: l.
Proof.
  induction l as [|y l IH]; simpl; [done|].
  destruct (key_ltb (kf y) (kf x)); [|done].
  rewrite IH. apply perm_swap.
Qed.

Lemma py_sort_perm l : py_sort kf l ≡ₚ l.
Proof.
  induction l as [|x l IH]; simpl; [done|].
  fold (py_sort kf l). by rewrite sort_insert_perm, IH.
Qed.

Lemma sort_insert_sorted x l :
  StronglySorted (le_by kf) l -> StronglySorted (le_by kf) (sort_insert kf x l).
Proof.
  induction 1 as [|y l Hl IH Hy]; simpl.
  - repeat constructor.
  - destruct (key_ltb (kf y) (kf x)) eqn:E.
    + constructor; [done|].
      rewrite sort_insert_perm. constructor; [|done].
      apply key_ltb_lt in E. apply key_le_alt. congruence.
    + assert (le_by kf x y) as Hxy by exact E.
      constructor; [by constructor|]. constructor; [done|].
      eapply Forall_impl; [exact Hy|]. intros z Hz.
      by apply (key_le_trans _ (kf y)).
Qed.

(** The result of the sort is in key order. *)
Lemma py_sort_sorted l : StronglySorted (le_by kf) (py_sort kf l).
Proof.
  induction l as [|x l IH]; simpl; [constructor|].
  by apply sort_insert_sorted.
Qed.

(** Without two equal keys the order is strict. *)
Lemma sorted_strict l :
  NoDup (map kf l) -> StronglySorted (le_by kf) l -> StronglySorted (lt_by kf) l.
Proof.
  induction 2 as [|x l Hl IH Hx]; [constructor|].
  apply NoDup_cons in H as [Hnin Hnd].
  constructor; [by apply IH|].
  apply Forall_forall. intros y Hy.
  apply key_le_ne_lt.
  - by apply (proj1 (Forall_forall _ _) Hx).
  - intros Heq. apply Hnin. rewrite Heq. by apply list_elem_of_fmap_2.
Qed.

Lemma lt_by_asym x y : lt_by kf x y -> lt_by kf y x -> False.
Proof.
  unfold lt_by. rewrite !key_ltb_lt, (key_compare_antisym (kf y) (kf x)).
  by intros ->.
Qed.

Lemma py_sort_strict l :
  NoDup (map kf l) -> StronglySorted (lt_by kf) (py_sort kf l).
Proof.
  intros Hnd. apply sorted_strict; [|apply py_sort_sorted].
  by rewrite py_sort_perm.
Qed.

(** The sort is stable: the elements of one key come out in the order they
    went in. *)
Lemma sort_insert_stable k x l :
  List.filter (fun y => bool_decide (kf y = k)) (sort_insert kf x l)
  = List.filter (fun y => bool_decide (kf y = k)) (x :: l).
Proof.
  induction l as [|y l IH]; [done|]. simpl.
  destruct (key_ltb (kf y) (kf x)) eqn:E; [|done]. simpl.
  rewrite IH. simpl.
  destruct (bool_decide_reflect (kf y = k)) as [Hy|Hy]; [|done].
  destruct (bool_decide_reflect (kf x = k)) as [Hx|Hx]; [|done].
  apply key_ltb_lt in E. rewrite Hx, Hy, key_compare_refl in E. done.
Qed.

Lemma py_sort_stable k l :
  List.filter (fun y => bool_decide (kf y = k)) (py_sort kf l)
  = List.filter (fun y => bool_decide (kf y = k)) l.
Proof.
  induction l as [|x l IH]; [done|]. simpl. fold (py_sort kf l).
  rewrite sort_insert_stable. simpl. by rewrite IH.
Qed.

End PySortFacts.

(** ** Genre normalization *)

Section Normalize.

Lemma normalize_loop_out genres seen out :
  normalize_loop genres seen out
  = (out ++ normalize_loop genres seen [])%list.
Proof.
  revert seen out. induction genres as [|g rest IH]; intros seen out; simpl.
  - by rewrite app_nil_r.
  - destruct (is_empty (strip g)); [apply IH|].
    destruct (decide (lower (strip g) ∈ seen)); [apply IH|].
    rewrite (IH _ (out ++ [strip g])%list), (IH _ [strip g]).
    by rewrite <- app_assoc.
Qed.

(** What comes out of the loop: trimmed non-empty entries, no two with the
    same lower-case form, none with a form seen before. *)
Lemma normalize_loop_normal genres seen :
  let out := normalize_loop genres seen [] in
  Forall (fun x => strip x = x /\ x <> "") out
  /\ NoDup (map lower out)
  /\ Forall (fun x => lower x ∉ seen) out.
Proof.
  revert seen. induction genres as [|g rest IH]; intros seen; simpl.
  - repeat split; constructor.
  - destruct (is_empty (strip g)) eqn:Eg; [apply IH|].
    destruct (decide (lower (strip g) ∈ seen)) as [Hin|Hnin]; [apply IH|].
    rewrite normalize_loop_out. simpl.
    destruct (IH ({[lower (strip g)]} ∪ seen)) as (Hs & Hnd & Hseen).
    repeat split.
    + constructor; [|done]. split; [apply strip_idemp|].
      by apply is_empty_false.
    + constructor; [|done]. intros Hx.
      apply list_elem_of_fmap in Hx as (x & Hx1 & Hx2).
      apply (proj1 (Forall_forall _ _) Hseen) in Hx2. apply Hx2.
      rewrite <- Hx1. by apply elem_of_union_l, elem_of_singleton.
    + constructor; [done|].
      eapply Forall_impl; [exact Hseen|]. intros y Hy Hin. apply Hy.
      by apply elem_of_union_r.
Qed.

(** On such a list the loop keeps every entry. *)
Lemma normalize_loop_fixed l seen out :
  Forall (fun x => strip x = x /\ x <> "") l ->
  NoDup (map lower l) ->
  Forall (fun x => lower x ∉ seen) l ->
  normalize_loop l seen out = (out ++ l)%list.
Proof.
  revert seen out. induction l as [|x l IH]; intros seen out Hs Hnd Hseen.
  - simpl. by rewrite app_nil_r.
  - apply Forall_cons in Hs as [[Hx1 Hx2] Hs].
    apply Forall_cons in Hseen as [Hx3 Hseen].
    simpl in Hnd. apply NoDup_cons in Hnd as [Hx4 Hnd].
    simpl. rewrite Hx1.
    apply is_empty_false in Hx2. rewrite Hx2.
    destruct (decide (lower x ∈ seen)); [done|].
    rewrite IH; [by rewrite <- app_assoc|done|done|].
    apply Forall_forall. intros y Hy.
    apply not_elem_of_union. split.
    + apply not_elem_of_singleton. intros Heq. apply Hx4. rewrite <- Heq.
      by apply list_elem_of_fmap_2.
    + by apply (proj1 (Forall_forall _ _) Hseen).
Qed.

Lemma _normalize_genres_idemp genres :
  _normalize_genres (Some (_normalize_genres genres))
  = _normalize_genres genres.
Proof.
  destruct genres as [[|g rest]|]; try done.
  unfold _normalize_genres at 2 3.
  destruct (normalize_loop_normal (g :: rest) ∅) as (Hs & Hnd & Hseen).
  destruct (normalize_loop (g :: rest) ∅ []) as [|x l] eqn:E; [done|].
  unfold _normalize_genres.
  by rewrite (normalize_loop_fixed (x :: l) ∅ []).
Qed.

End Normalize.

(** ** The dict [_movies] *)

Section DictFacts.
Implicit Types (d : list (string * addr)) (k : string) (v : addr).

Lemma dict_get_elem k v d : dict_get k d = Some v -> (k, v) ∈ d.
Proof.
  induction d as [|[k' v'] d IH]; simpl; [done|].
  destruct (String.eqb_spec k k') as [->|Hne].
  - intros [= ->]. apply list_elem_of_here.
  - intros H. apply list_elem_of_further. auto.
Qed.

Lemma dict_get_None k d : dict_get k d = None <-> k ∉ map fst d.
Proof.
  induction d as [|[k' v'] d IH]; simpl.
  - split; [intros _; apply not_elem_of_nil | done].
  - rewrite not_elem_of_cons.
    destruct (String.eqb_spec k k') as [->|Hne]; [split; [done|tauto]|].
    rewrite IH. tauto.
Qed.

Lemma dict_set_elem k v d e : e ∈ dict_set k v d -> e = (k, v) \/ e ∈ d.
Proof.
  induction d as [|[k' v'] d IH]; simpl.
  - intros ->%list_elem_of_singleton. by left.
  - destruct (String.eqb k k').
    + intros [->| H]%elem_of_cons; [by left|].
      right. by apply list_elem_of_further.
    + intros [->| H]%elem_of_cons; [right; apply list_elem_of_here|].
      destruct (IH H); [by left|]. right. by apply list_elem_of_further.
Qed.

Lemma dict_set_keys k v d :
  map fst (dict_set k v d)
  = if decide (k ∈ map fst d) then map fst d else (map fst d ++ [k])%list.
Proof.
  induction d as [|[k' v'] d IH]; simpl; [done|].
  destruct (String.eqb_spec k k') as [->|Hne]; simpl.
  - rewrite decide_True; [done|]. apply list_elem_of_here.
  - rewrite IH. destruct (decide (k ∈ map fst d)) as [Hin|Hnin].
    + rewrite decide_True; [done|]. by apply list_elem_of_further.
    + rewrite decide_False; [done|]. by apply not_elem_of_cons.
Qed.

Lemma dict_get_set k v d : dict_get k (dict_set k v d) = Some v.
Proof.
  induction d as [|[k' v'] d IH]; simpl.
  - by rewrite String.eqb_refl.
  - destruct (String.eqb k k') eqn:E; simpl.
    + by rewrite String.eqb_refl.
    + by rewrite E.
Qed.

Lemma dict_set_NoDup k v d :
  NoDup (map fst d) -> NoDup (map fst (dict_set k v d)).
Proof.
  intros Hd. rewrite dict_set_keys. case_decide; [done|].
  apply NoDup_app. repeat split; [done| |apply NoDup_singleton].
  intros x Hx ->%list_elem_of_singleton. done.
Qed.

Lemma dict_del_elem k d e : e ∈ dict_del k d -> e ∈ d.
Proof.
  induction d as [|[k' v'] d IH]; simpl; [done|].
  destruct (String.eqb k k').
  - apply list_elem_of_further.
  - intros [->|H]%elem_of_cons; [apply list_elem_of_here|].
    apply list_elem_of_further. auto.
Qed.

Lemma dict_del_NoDup k d :
  NoDup (map fst d) -> NoDup (map fst (dict_del k d)).
Proof.
  induction d as [|[k' v'] d IH]; simpl; [done|].
  intros [Hnin Hd]%NoDup_cons. destruct (String.eqb k k'); [done|].
  simpl. apply NoDup_cons. split; [|auto].
  intros (e & He1 & He2)%list_elem_of_fmap. apply Hnin.
  apply list_elem_of_fmap. exists e. split; [done|].
  by apply dict_del_elem in He2.
Qed.

Lemma dict_get_del k d :
  NoDup (map fst d) -> dict_get k (dict_del k d) = None.
Proof.
  induction d as [|[k' v'] d IH]; simpl; [done|].
  intros [Hnin Hd]%NoDup_cons.
  destruct (String.eqb_spec k k') as [->|Hne].
  - by apply dict_get_None.
  - simpl. destruct (String.eqb_spec k k'); [done|]. auto.
Qed.

End DictFacts.

(** ** Heap and invariant *)

Section HeapFacts.

Lemma dict_at_old d d' l1 l2 mv1 mv2 a :
  (a < length d)%nat ->
  dict_at (World (d ++ d') l1 mv1) a = dict_at (World d l2 mv2) a.
Proof. intros H. unfold dict_at. simpl. by apply lookup_total_app_l. Qed.

Lemma dict_at_new d m l mv :
  dict_at (World (d ++ [m]) l mv) (length d) = m.
Proof.
  unfold dict_at. simpl. rewrite lookup_total_app_r; [|done].
  by rewrite Nat.sub_diag.
Qed.

Lemma dict_at_alter f m d l1 l2 mv1 mv2 a :
  dict_at (World (alter f m d) l1 mv1) a
  = if decide (m = a /\ (m < length d)%nat)
    then f (dict_at (World d l2 mv2) a)
    else dict_at (World d l2 mv2) a.
Proof.
  unfold dict_at. simpl. rewrite list_lookup_total_alter.
  destruct (decide (m = a /\ (m < length d)%nat)) as [[-> ?]|?]; done.
Qed.

Lemma checkout_ok_unborrowed i t y g d c u :
  checkout_ok (Movie i t y g d false None None c u).
Proof.
  split; simpl; split; try done.
  intros [[? ?] _]. done.
Qed.

Lemma checkout_ok_borrowed i t y g d b a c u :
  checkout_ok (Movie i t y g d true (Some b) (Some a) c u).
Proof.
  split; simpl; split; try done.
  intros [? _]. done.
Qed.

Lemma checkout_ok_dict_at w a :
  Forall checkout_ok (dicts w) -> checkout_ok (dict_at w a).
Proof.
  intros H. unfold dict_at.
  destruct (dicts w !! a) as [m|] eqn:E.
  - rewrite (list_lookup_total_correct _ _ _ E).
    by apply (Forall_lookup_1 _ _ _ _ H E).
  - rewrite list_lookup_total_alt, E. apply checkout_ok_unborrowed.
Qed.

Lemma wf_init : wf init.
Proof. split; simpl; constructor. Qed.

Lemma wf_new_dict m w : checkout_ok m -> wf w -> wf (snd (new_dict m w)).
Proof.
  intros Hm [H1 H2 H3 H4]. split; simpl.
  - eapply Forall_impl; [exact H1|]. intros a Ha. simpl in Ha.
    rewrite length_app. lia.
  - apply Forall_forall. intros [k a] He. simpl.
    rewrite (dict_at_old _ _ _ (lists w) _ (_movies w)).
    + by apply (proj1 (Forall_forall _ _) H2 (k, a)).
    + apply (proj1 (Forall_forall _ _) H1).
      by apply (list_elem_of_fmap_2 snd _ (k, a)).
  - done.
  - apply Forall_app. split; [done|]. by constructor.
Qed.

Lemma wf_new_list l w : wf w -> wf (snd (new_list l w)).
Proof. intros [H1 H2 H3 H4]. by split. Qed.

Lemma wf_setitem m f w :
  (forall x, m_id (f x) = m_id x) ->
  (forall x, checkout_ok x -> checkout_ok (f x)) ->
  wf w -> wf (snd (setitem m f w)).
Proof.
  intros Hid Hok [H1 H2 H3 H4]. split; simpl.
  - by rewrite length_alter.
  - eapply Forall_impl; [exact H2|]. intros [k a] He. simpl in *.
    rewrite (dict_at_alter _ _ _ _ (lists w) _ (_movies w)).
    case_decide; [|done]. by rewrite Hid.
  - done.
  - apply Forall_alter; [done|]. intros x _. apply Hok.
Qed.

Lemma wf_dict_del k w :
  wf w -> wf (World (dicts w) (lists w) (dict_del k (_movies w))).
Proof.
  intros [H1 H2 H3 H4]. split; simpl.
  - apply Forall_forall. intros a (e & -> & He)%list_elem_of_fmap.
    apply (proj1 (Forall_forall _ _) H1).
    apply list_elem_of_fmap_2. by apply dict_del_elem in He.
  - apply Forall_forall. intros e He%dict_del_elem.
    by apply (proj1 (Forall_forall _ _) H2 e).
  - by apply dict_del_NoDup.
  - done.
Qed.

(** The address under an id of a well-formed world is allocated. *)
Lemma wf_get_alloc w k m :
  wf w -> dict_get k (_movies w) = Some m -> (m < length (dicts w))%nat.
Proof.
  intros [H1 _ _ _] H%dict_get_elem.
  apply (proj1 (Forall_forall _ _) H1).
  by apply (list_elem_of_fmap_2 snd _ (k, m)).
Qed.

End HeapFacts.

(** ** Rules for [preserves] *)

Section Preserves.

Lemma preserves_ret {A} (x : A) : preserves (ret x).
Proof. by intros w. Qed.

Lemma preserves_raise {A} e : preserves (@raise A e).
Proof. by intros w. Qed.

Lemma preserves_gets {A} (f : world -> A) : preserves (gets f).
Proof. by intros w. Qed.

Lemma preserves_bind {A B} (c : M A) (k : A -> M B) :
  preserves c -> (forall x, preserves (k x)) -> preserves (bind c k).
Proof.
  intros Hc Hk w Hw. unfold bind. specialize (Hc w Hw).
  destruct (c w) as [[e|x] w']; simpl in *; [done|]. by apply Hk.
Qed.

Lemma preserves_mapM {A B} (f : A -> M B) l :
  (forall x, preserves (f x)) -> preserves (mapM f l).
Proof.
  intros Hf. induction l as [|x l IH]; simpl.
  - apply preserves_ret.
  - apply preserves_bind; [done|]. intros y.
    apply preserves_bind; [done|]. intros ys. apply preserves_ret.
Qed.

Lemma preserves_new_list l : preserves (new_list l).
Proof. intros w. apply wf_new_list. Qed.

Lemma preserves_setitem m f :
  (forall x, m_id (f x) = m_id x) ->
  (forall x, checkout_ok x -> checkout_ok (f x)) ->
  preserves (setitem m f).
Proof. intros ? ? w. by apply wf_setitem. Qed.

Lemma preserves_require movie_id : preserves (_require_movie movie_id).
Proof.
  intros w Hw. unfold _require_movie, bind, gets. simpl.
  by destruct (dict_get movie_id (_movies w)).
Qed.

Lemma preserves_public m : preserves (_movie_public m).
Proof.
  intros w Hw. unfold _movie_public, bind, gets.
  apply wf_new_dict; [|done]. apply checkout_ok_dict_at, Hw.
Qed.

(** The four assignments of [borrow_movie] and [return_movie] as one
    step: only their joint effect has to keep the checkout fields in
    agreement. *)
Lemma preserves_setitem4 {A} m f1 f2 f3 f4 (k : M A) :
  (forall x, m_id (f4 (f3 (f2 (f1 x)))) = m_id x) ->
  (forall x, checkout_ok (f4 (f3 (f2 (f1 x))))) ->
  preserves k ->
  preserves (setitem m f1 ;; setitem m f2 ;; setitem m f3 ;;
             setitem m f4 ;; k).
Proof.
  intros Hid Hok Hk w Hw.
  change (wf (snd (k (World
    (alter f4 m (alter f3 m (alter f2 m (alter f1 m (dicts w)))))
    (lists w) (_movies w))))).
  rewrite !list_alter_alter_eq. apply Hk.
  apply (wf_setitem m (f4 ∘ f3 ∘ f2 ∘ f1) w);
    [intros x; apply Hid | intros x _; apply Hok | done].
Qed.

End Preserves.

(** ** Every call keeps the invariant *)

Section Invariant.

Lemma wf_dict_set k a w :
  wf w -> (a < length (dicts w))%nat -> m_id (dict_at w a) = k ->
  wf (World (dicts w) (lists w) (dict_set k a (_movies w))).
Proof.
  intros [H1 H2 H3 H4] Ha Hk. split; simpl.
  - apply Forall_forall. intros x (e & -> & He)%list_elem_of_fmap.
    apply dict_set_elem in He as [->|He]; [done|].
    apply (proj1 (Forall_forall _ _) H1). by apply list_elem_of_fmap_2.
  - apply Forall_forall. intros e [->|He]%dict_set_elem; [done|].
    by apply (proj1 (Forall_forall _ _) H2 e).
  - by apply dict_set_NoDup.
  - done.
Qed.

(** The run of [add_movie] on valid arguments. *)
Lemma add_movie_ok uuid4 now1 now2 title year genres director w :
  is_empty (strip title) = false ->
  (year <? 1878) || (year >? 3000) = false ->
  let record :=
    Movie uuid4 (strip title) year (length (lists w))
          (or_None (strip (or_empty director))) false None None now1 now2 in
  add_movie uuid4 now1 now2 title year genres director w
  = (inr (S (length (dicts w))),
     World (dicts w ++ [record; record])
           (lists w ++ [_normalize_genres genres])
           (dict_set uuid4 (length (dicts w)) (_movies w))).
Proof.
  intros Ht Hy. unfold add_movie. rewrite Ht, Hy.
  run_monad. rewrite dict_at_new, length_app. simpl.
  rewrite <- app_assoc. simpl. do 2 f_equal. lia.
Qed.

Lemma preserves_add uuid4 now1 now2 title year genres director :
  preserves (add_movie uuid4 now1 now2 title year genres director).
Proof.
  intros w Hw.
  destruct (is_empty (strip title)) eqn:Ht;
    [unfold add_movie; by rewrite Ht|].
  destruct ((year <? 1878) || (year >? 3000)) eqn:Hy;
    [unfold add_movie; by rewrite Ht, Hy|].
  rewrite add_movie_ok by done. simpl.
  set (record := Movie uuid4 _ _ _ _ _ _ _ _ _).
  pose proof (checkout_ok_unborrowed uuid4 (strip title) year
                (length (lists w)) (or_None (strip (or_empty director)))
                now1 now2) as Hok. fold record in Hok.
  pose proof (wf_new_dict record _ Hok
                (wf_new_list (_normalize_genres genres) w Hw)) as Hw2.
  simpl in Hw2.
  apply (wf_dict_set uuid4 (length (dicts w))) in Hw2; simpl in *.
  - apply (wf_new_dict record) in Hw2; [|done]. simpl in Hw2.
    by rewrite <- app_assoc in Hw2.
  - rewrite length_app. simpl. lia.
  - by rewrite dict_at_new.
Qed.

Lemma preserves_get movie_id : preserves (get_movie movie_id).
Proof.
  apply preserves_bind; [apply preserves_require|].
  intros m. apply preserves_public.
Qed.

Lemma preserves_list only_available : preserves (list_movies only_available).
Proof.
  unfold list_movies.
  repeat (apply preserves_bind; [apply preserves_gets|intros ?]).
  apply preserves_mapM, preserves_public.
Qed.

Lemma preserves_search query year genre director only_available :
  preserves (search_movies query year genre director only_available).
Proof.
  unfold search_movies.
  repeat (apply preserves_bind; [apply preserves_gets|intros ?]).
  apply preserves_mapM, preserves_public.
Qed.

Lemma preserves_update now movie_id title year genres director :
  preserves (update_movie now movie_id title year genres director).
Proof.
  unfold update_movie.
  apply preserves_bind; [apply preserves_require|]. intros m.
  apply preserves_bind.
  { destruct title as [t|]; [|apply preserves_ret].
    destruct (is_empty (strip t)); [apply preserves_raise|].
    by apply preserves_setitem. }
  intros _. apply preserves_bind.
  { destruct year as [y|]; [|apply preserves_ret].
    destruct ((y <? 1878) || (y >? 3000)); [apply preserves_raise|].
    by apply preserves_setitem. }
  intros _. apply preserves_bind.
  { destruct genres as [gs|]; [|apply preserves_ret].
    apply preserves_bind; [apply preserves_new_list|]. intros gl.
    by apply preserves_setitem. }
  intros _. apply preserves_bind.
  { destruct director as [d|]; [|apply preserves_ret].
    by apply preserves_setitem. }
  intros _. apply preserves_bind; [by apply preserves_setitem|].
  intros _. apply preserves_public.
Qed.

Lemma preserves_delete movie_id : preserves (delete_movie movie_id).
Proof.
  apply preserves_bind; [apply preserves_require|]. intros _.
  apply preserves_bind; [|intros ?; apply preserves_ret].
  intros w. apply wf_dict_del.
Qed.

Lemma preserves_borrow now1 now2 movie_id borrower :
  preserves (borrow_movie now1 now2 movie_id borrower).
Proof.
  unfold borrow_movie.
  destruct (is_empty (strip borrower)); [apply preserves_raise|].
  apply preserves_bind; [apply preserves_require|]. intros m.
  apply preserves_bind; [apply preserves_gets|]. intros r.
  destruct (m_borrowed r); [apply preserves_raise|].
  apply preserves_setitem4; [done| |apply preserves_public].
  intros x. apply checkout_ok_borrowed.
Qed.

Lemma preserves_return now movie_id : preserves (return_movie now movie_id).
Proof.
  unfold return_movie.
  apply preserves_bind; [apply preserves_require|]. intros m.
  apply preserves_bind; [apply preserves_gets|]. intros r.
  destruct (negb (m_borrowed r)); [apply preserves_raise|].
  apply preserves_setitem4; [done| |apply preserves_public].
  intros x. apply checkout_ok_unborrowed.
Qed.

Lemma preserves_run c : preserves (run c).
Proof.
  destruct c; simpl;
    (apply preserves_bind; [|intros ?; apply preserves_ret]).
  - apply preserves_add.
  - apply preserves_get.
  - apply preserves_list.
  - apply preserves_search.
  - apply preserves_update.
  - apply preserves_delete.
  - apply preserves_borrow.
  - apply preserves_return.
Qed.

Lemma reachable_wf w : reachable w -> wf w.
Proof.
  induction 1 as [|w c _ IH]; [apply wf_init|]. by apply preserves_run.
Qed.

End Invariant.

(** * The store against its specification *)

(** ** Validation in [add_movie] *)

Section AddMovie.
Variables (uuid4 now1 now2 : string).
Variables (genres : option (list string)) (director : option string).
Variable (w : world).

Lemma add_movie_blank_title title year :
  strip title = "" ->
  add_movie uuid4 now1 now2 title year genres director w
  = (inl (ValueError "title is required."), w).
Proof. intros H. unfold add_movie. by rewrite H. Qed.

Lemma add_movie_bad_year title year :
  strip title <> "" -> year < 1878 \/ 3000 < year ->
  add_movie uuid4 now1 now2 title year genres director w
  = (inl (ValueError "year looks invalid."), w).
Proof.
  intros Ht%is_empty_false Hy. unfold add_movie. rewrite Ht.
  assert ((year <? 1878) || (year >? 3000) = true) as ->; [|done].
  apply orb_true_iff. rewrite Z.ltb_lt, Z.gtb_gt. lia.
Qed.

Lemma add_movie_valid title year :
  strip title <> "" -> 1878 <= year <= 3000 ->
  exists w',
    add_movie uuid4 now1 now2 title year genres director w
    = (inr (S (length (dicts w))), w').
Proof.
  intros Ht%is_empty_false Hy. eexists. apply add_movie_ok; [done|].
  apply orb_false_iff. rewrite Z.ltb_ge, Z.gtb_ltb, Z.ltb_ge. lia.
Qed.

(** C8. [add_movie] raises the error of an invalid argument exactly when
    the title is empty after trimming or the year lies outside
    [1878, 3000], and returns otherwise.  The error is the [ValueError] of
    the title check, or else that of the year check, and the world is left
    as it was.  The title "" with the year 2000 and the title "X" with the
    years 1877 and 3001 are refused, "X" with 1878 and with 3000 is
    accepted. *)
Theorem add_movie_validation title year :
  let add t y := add_movie uuid4 now1 now2 t y genres director w in
  (raises (add title year) InvalidArgument
     <-> strip title = "" \/ year < 1878 \/ 3000 < year)
  /\ (returns (add title year)
     <-> ~ (strip title = "" \/ year < 1878 \/ 3000 < year))
  /\ (strip title = "" ->
      add title year = (inl (ValueError "title is required."), w))
  /\ (strip title <> "" -> year < 1878 \/ 3000 < year ->
      add title year = (inl (ValueError "year looks invalid."), w))
  /\ raises (add "" 2000) InvalidArgument
  /\ raises (add "X" 1877) InvalidArgument
  /\ returns (add "X" 1878)
  /\ returns (add "X" 3000)
  /\ raises (add "X" 3001) InvalidArgument.
Proof.
  intros add.
  assert (forall t y, strip t = "" \/ y < 1878 \/ 3000 < y ->
                      raises (add t y) InvalidArgument) as Hbad.
  { intros t y Hc. unfold add.
    destruct (decide (strip t = "")) as [Ht|Ht].
    - rewrite add_movie_blank_title by done. by eexists.
    - rewrite add_movie_bad_year by tauto. by eexists. }
  assert (forall t y, ~ (strip t = "" \/ y < 1878 \/ 3000 < y) ->
                      returns (add t y)) as Hgood.
  { intros t y Hc. unfold add.
    destruct (add_movie_valid t y) as [w' ->]; [tauto|lia|]. by eexists. }
  assert (forall t y, raises (add t y) InvalidArgument ->
                      returns (add t y) -> False) as Hexcl.
  { intros t y (e & He & _) (a & Ha). congruence. }
  split; [|split; [|split; [|split]]]; [| | | |repeat split].
  - split; [|apply Hbad]. intros Hr.
    destruct (decide (strip title = "")) as [?|?]; [tauto|].
    destruct (decide (1878 <= year <= 3000)) as [?|?]; [|lia].
    exfalso. apply (Hexcl title year Hr), Hgood.
    intros [?|?]; [done|lia].
  - split; [|apply Hgood]. intros Hr Hc.
    by apply (Hexcl title year (Hbad _ _ Hc)).
  - apply add_movie_blank_title.
  - apply add_movie_bad_year.
  - apply Hbad. by left.
  - apply Hbad. lia.
  - apply Hgood. intros [?|?]; [done|lia].
  - apply Hgood. intros [?|?]; [done|lia].
  - apply Hbad. lia.
Qed.

End AddMovie.

(** ** Genre normalization *)

(** C9. Normalizing a normalized genre list gives the same list;
    ["Action"; "action"; "Drama"] becomes ["Action"; "Drama"].  What comes
    out holds trimmed, non-empty entries, no two equal in lower case. *)
Theorem normalize_genres_idempotent :
  (forall genres,
     _normalize_genres (Some (_normalize_genres genres))
     = _normalize_genres genres)
  /\ _normalize_genres (Some ["Action"; "action"; "Drama"])
     = ["Action"; "Drama"]
  /\ (forall genres,
        Forall (fun g => strip g = g /\ g <> "") (_normalize_genres genres)
        /\ NoDup (map lower (_normalize_genres genres))).
Proof.
  split; [apply _normalize_genres_idemp|]. split; [by vm_compute|].
  intros [[|g rest]|]; try (split; constructor).
  destruct (normalize_loop_normal (g :: rest) ∅) as (H1 & H2 & _).
  by split.
Qed.

(** ** Timestamps and checkout fields of a new record *)

Lemma dict_at_second d m1 m2 l mv :
  dict_at (World (d ++ [m1; m2]) l mv) (S (length d)) = m2.
Proof.
  unfold dict_at. simpl. rewrite lookup_total_app_r by lia.
  by replace (S (length d) - length d)%nat with 1%nat by lia.
Qed.

Lemma dict_at_first d m1 m2 l mv :
  dict_at (World (d ++ [m1; m2]) l mv) (length d) = m1.
Proof.
  unfold dict_at. simpl. rewrite lookup_total_app_r by lia.
  by rewrite Nat.sub_diag.
Qed.

(** C3, as the code has it.  A successful [add_movie] files the new record
    under its id and returns a copy of it; [created_at] is the first reading
    of the clock and [updated_at] the second, so the two are equal when the
    readings are; the record is not borrowed, and [borrowed_by] and
    [borrowed_at] are absent. *)
Theorem add_movie_stamps uuid4 now1 now2 title year genres director w a w' :
  add_movie uuid4 now1 now2 title year genres director w = (inr a, w') ->
  stored w' uuid4 = Some (dict_at w' a)
  /\ m_created_at (dict_at w' a) = now1
  /\ m_updated_at (dict_at w' a) = now2
  /\ (now1 = now2 ->
      m_created_at (dict_at w' a) = m_updated_at (dict_at w' a))
  /\ m_borrowed (dict_at w' a) = false
  /\ m_borrowed_by (dict_at w' a) = None
  /\ m_borrowed_at (dict_at w' a) = None.
Proof.
  intros Hrun.
  destruct (is_empty (strip title)) eqn:Ht;
    [unfold add_movie in Hrun; by rewrite Ht in Hrun|].
  destruct ((year <? 1878) || (year >? 3000)) eqn:Hy;
    [unfold add_movie in Hrun; by rewrite Ht, Hy in Hrun|].
  rewrite add_movie_ok in Hrun by done. injection Hrun as <- <-.
  unfold stored. simpl. rewrite dict_get_set. simpl.
  rewrite dict_at_first, dict_at_second. simpl. by repeat split.
Qed.

Lemma add_movie_stamps_witness :
  add_movie "id1" "t1" "t2" "Dune" 2021 None None init
  = (inr 1%nat, snd (add_movie "id1" "t1" "t2" "Dune" 2021 None None init))
  /\ m_created_at
       (dict_at (snd (add_movie "id1" "t1" "t2" "Dune" 2021 None None init))
                1%nat) = "t1".
Proof.
  split; [reflexivity|].
  exact (proj1 (proj2 (add_movie_stamps "id1" "t1" "t2" "Dune" 2021 None None
                         init 1%nat _ eq_refl))).
Defined.

(** C3 as stated fails: the two timestamps of a new record are two readings
    of the clock, and differ when the clock has moved in between. *)
Lemma add_movie_stamps_differ :
  exists a w',
    add_movie "id1" "2024-05-01T10:00:00.000001+00:00"
              "2024-05-01T10:00:00.000002+00:00" "Dune" 2021 None None init
    = (inr a, w')
    /\ m_created_at (dict_at w' a) <> m_updated_at (dict_at w' a).
Proof. eexists _, _. split; [vm_compute; reflexivity|]. by vm_compute. Qed.

(** ** Failing updates *)

(** What a rejected year leaves behind: when the title is provided and
    valid, the world after the raise has the new title in the stored
    record. *)
Lemma update_movie_year_rejected now movie_id title year genres director w m :
  dict_get movie_id (_movies w) = Some m ->
  strip title <> "" -> year < 1878 \/ 3000 < year ->
  update_movie now movie_id (Some title) (Some year) genres director w
  = (inl (ValueError "year looks invalid."),
     World (alter (set_title (strip title)) m (dicts w))
           (lists w) (_movies w)).
Proof.
  intros Hm Ht%is_empty_false Hy. unfold update_movie. run_monad.
  rewrite Hm. run_monad. rewrite Ht. run_monad.
  assert ((year <? 1878) || (year >? 3000) = true) as ->; [|done].
  apply orb_true_iff. rewrite Z.ltb_lt, Z.gtb_gt. lia.
Qed.

(** A rejected title, and a rejected year without a title, leave the world
    as it was. *)
Lemma update_movie_title_rejected now movie_id title year genres director w m :
  dict_get movie_id (_movies w) = Some m ->
  strip title = "" ->
  update_movie now movie_id (Some title) year genres director w
  = (inl (ValueError "title cannot be empty."), w).
Proof.
  intros Hm Ht. unfold update_movie. run_monad.
  rewrite Hm. run_monad. by rewrite Ht.
Qed.

Lemma update_movie_year_alone_rejected now movie_id year genres director w m :
  dict_get movie_id (_movies w) = Some m ->
  year < 1878 \/ 3000 < year ->
  update_movie now movie_id None (Some year) genres director w
  = (inl (ValueError "year looks invalid."), w).
Proof.
  intros Hm Hy. unfold update_movie. run_monad.
  rewrite Hm. run_monad.
  assert ((year <? 1878) || (year >? 3000) = true) as ->; [|done].
  apply orb_true_iff. rewrite Z.ltb_lt, Z.gtb_gt. lia.
Qed.

(** C1 fails on the code.  [update_movie] assigns the title before it checks
    the year: with a valid title and the year 1000 the call raises, and the
    stored title is the new one, under the old [updated_at]. *)
Theorem update_movie_not_atomic :
  let r := update_movie "2024-06-01T00:00:00+00:00" "id1"
                        (Some "Arrakis") (Some 1000) None None sample_one in
  raises r InvalidArgument
  /\ m_title <$> stored sample_one "id1" = Some "Dune"
  /\ m_title <$> stored (snd r) "id1" = Some "Arrakis"
  /\ m_updated_at <$> stored (snd r) "id1"
     = m_updated_at <$> stored sample_one "id1".
Proof.
  split; [|by vm_compute].
  exists (ValueError "year looks invalid."). by vm_compute.
Qed.

(** ** An update that provides nothing *)

Lemma update_movie_none now movie_id w m :
  dict_get movie_id (_movies w) = Some m ->
  update_movie now movie_id None None None None w
  = (inr (length (dicts w)),
     World (alter (set_updated_at now) m (dicts w)
            ++ [dict_at (World (alter (set_updated_at now) m (dicts w))
                               (lists w) (_movies w)) m])
           (lists w) (_movies w)).
Proof.
  intros H. unfold update_movie. run_monad. rewrite H. run_monad.
  by rewrite length_alter.
Qed.

(** C10. On an existing record, [update_movie] with no field provided
    returns.  The record then stored under the id has the fields of the old
    one, the genres list included (the same list object, with the same
    contents), but for [updated_at], which is the reading of the clock; the
    store holds the same ids; what is returned is a copy of the stored
    record. *)
Theorem update_movie_nothing_provided now movie_id w r :
  reachable w -> stored w movie_id = Some r ->
  exists a w' r',
    update_movie now movie_id None None None None w = (inr a, w')
    /\ stored w' movie_id = Some r'
    /\ dict_at w' a = r'
    /\ map fst (_movies w') = map fst (_movies w)
    /\ m_updated_at r' = now
    /\ m_id r' = m_id r
    /\ m_title r' = m_title r
    /\ m_year r' = m_year r
    /\ m_genres r' = m_genres r
    /\ genres_of w' r' = genres_of w r
    /\ m_director r' = m_director r
    /\ m_borrowed r' = m_borrowed r
    /\ m_borrowed_by r' = m_borrowed_by r
    /\ m_borrowed_at r' = m_borrowed_at r
    /\ m_created_at r' = m_created_at r.
Proof.
  intros Hw%reachable_wf Hr. unfold stored in *.
  destruct (dict_get movie_id (_movies w)) as [m|] eqn:Hm; [|done].
  injection Hr as <-.
  pose proof (wf_get_alloc _ _ _ Hw Hm) as Hlt.
  exists (length (dicts w)). eexists. exists (set_updated_at now (dict_at w m)).
  split; [by apply update_movie_none|].
  destruct w as [d l mv]. simpl in *. rewrite Hm. simpl.
  assert (dict_at (World (alter (set_updated_at now) m d) l mv) m
          = set_updated_at now (dict_at (World d l mv) m)) as E.
  { rewrite (dict_at_alter _ _ _ _ l _ mv). by rewrite decide_True. }
  rewrite E. split; [|split]; [| |by repeat split].
  - rewrite (dict_at_old _ _ _ l _ mv) by by rewrite length_alter.
    by rewrite E.
  - rewrite <- (length_alter (set_updated_at now) d m). apply dict_at_new.
Qed.

Lemma update_movie_nothing_provided_witness :
  reachable sample_one
  /\ is_Some (stored sample_one "id1")
  /\ exists a w',
       update_movie "now" "id1" None None None None sample_one = (inr a, w')
       /\ m_updated_at <$> stored w' "id1" = Some "now".
Proof.
  assert (reachable sample_one) as Hr
    by (unfold sample_one; apply reachable_call, reachable_init).
  split; [exact Hr|]. split; [by eexists|].
  destruct (update_movie_nothing_provided "now" "id1" sample_one _ Hr eq_refl)
    as (a & w' & r' & H1 & H2 & _ & _ & H3 & _).
  exists a, w'. split; [exact H1|]. by rewrite H2, <- H3.
Defined.

(** ** The checkout invariant *)

(** C4. In every world reached from the empty store by calls of the eight
    operations, every record of the collection is borrowed exactly when
    both [borrowed_by] and [borrowed_at] are present, and not borrowed
    exactly when both are absent. *)
Theorem checkout_invariant w m :
  reachable w -> m ∈ records w ->
  (m_borrowed m = true
     <-> is_Some (m_borrowed_by m) /\ is_Some (m_borrowed_at m))
  /\ (m_borrowed m = false
     <-> m_borrowed_by m = None /\ m_borrowed_at m = None).
Proof.
  intros Hw%reachable_wf (a & -> & _)%list_elem_of_fmap.
  apply checkout_ok_dict_at, Hw.
Qed.

Lemma checkout_invariant_witness :
  reachable sample_borrowed
  /\ dict_at sample_borrowed 0%nat ∈ records sample_borrowed
  /\ (m_borrowed (dict_at sample_borrowed 0%nat) = true
      <-> is_Some (m_borrowed_by (dict_at sample_borrowed 0%nat))
          /\ is_Some (m_borrowed_at (dict_at sample_borrowed 0%nat))).
Proof.
  assert (reachable sample_borrowed) as Hr
    by (unfold sample_borrowed, sample_one;
        apply reachable_call, reachable_call, reachable_init).
  assert (dict_at sample_borrowed 0%nat ∈ records sample_borrowed) as Hin
    by (vm_compute; apply list_elem_of_here).
  split; [exact Hr|]. split; [exact Hin|].
  exact (proj1 (checkout_invariant sample_borrowed _ Hr Hin)).
Defined.

(** ** Rejected borrows and returns *)

Lemma borrow_movie_blank now1 now2 movie_id borrower w :
  is_empty (strip borrower) = true ->
  borrow_movie now1 now2 movie_id borrower w
  = (inl (ValueError "borrower is required."), w).
Proof. intros H. unfold borrow_movie. by rewrite H. Qed.

Lemma borrow_movie_borrowed now1 now2 movie_id borrower w m :
  is_empty (strip borrower) = false ->
  dict_get movie_id (_movies w) = Some m ->
  m_borrowed (dict_at w m) = true ->
  borrow_movie now1 now2 movie_id borrower w
  = (inl (ValueError ("Movie is already borrowed by "
                      ++ format_opt (m_borrowed_by (dict_at w m)) ++ ".")),
     w).
Proof.
  intros Hb Hm Hr. unfold borrow_movie. rewrite Hb. run_monad.
  rewrite Hm. run_monad. by rewrite Hr.
Qed.

Lemma return_movie_available now movie_id w m :
  dict_get movie_id (_movies w) = Some m ->
  m_borrowed (dict_at w m) = false ->
  return_movie now movie_id w = (inl (ValueError "Movie is not borrowed."), w).
Proof.
  intros Hm Hr. unfold return_movie. run_monad. rewrite Hm. run_monad.
  by rewrite Hr.
Qed.

(** C5. [borrow_movie] on a record that is borrowed raises the conflict,
    whose message names the current borrower, and leaves the world, and so
    the record, as it is; this is so for every borrower that passes the
    check of the borrower, which comes first: a borrower that is empty after
    trimming is refused as an invalid argument, the world unchanged as
    well.  [return_movie] on a record that is not borrowed raises the
    invalid-state error and leaves the world as it is.  Neither call
    returns. *)
Theorem borrow_return_rejected w movie_id r :
  reachable w -> stored w movie_id = Some r ->
  (m_borrowed r = true ->
   forall now1 now2 borrower,
     (strip borrower <> "" ->
      exists name e,
        m_borrowed_by r = Some name
        /\ e = ValueError ("Movie is already borrowed by " ++ name ++ ".")
        /\ kind_of e = Some Conflict
        /\ borrow_movie now1 now2 movie_id borrower w = (inl e, w)
        /\ stored w movie_id = Some r)
     /\ (strip borrower = "" ->
         exists e,
           e = ValueError "borrower is required."
           /\ kind_of e = Some InvalidArgument
           /\ borrow_movie now1 now2 movie_id borrower w = (inl e, w)))
  /\ (m_borrowed r = false ->
      forall now,
      exists e,
        e = ValueError "Movie is not borrowed."
        /\ kind_of e = Some InvalidState
        /\ return_movie now movie_id w = (inl e, w)
        /\ stored w movie_id = Some r).
Proof.
  intros Hw%reachable_wf Hr. pose proof Hr as Hst. unfold stored in Hr.
  destruct (dict_get movie_id (_movies w)) as [m|] eqn:Hm; [|done].
  injection Hr as <-. split.
  - intros Hb now1 now2 borrower. split.
    + intros Eb%is_empty_false.
      pose proof (checkout_ok_dict_at w m (wf_checkout w Hw)) as [Hok _].
      destruct (proj1 Hok Hb) as [[name Hname] _].
      exists name, (ValueError ("Movie is already borrowed by "
                                ++ name ++ ".")).
      split; [done|]. split; [done|]. split; [done|]. split; [|done].
      rewrite (borrow_movie_borrowed _ _ _ _ _ m) by done.
      by rewrite Hname.
    + intros Eb%is_empty_true. eexists. split; [done|]. split; [done|].
      by apply borrow_movie_blank.
  - intros Hb now. eexists. split; [done|]. split; [done|].
    split; [by apply (return_movie_available _ _ _ m)|done].
Qed.

Lemma borrow_return_rejected_witness :
  reachable sample_borrowed
  /\ stored sample_borrowed "id1" = Some (dict_at sample_borrowed 0%nat)
  /\ m_borrowed (dict_at sample_borrowed 0%nat) = true
  /\ strip "Bob" <> ""
  /\ borrow_movie "t1" "t2" "id1" "Bob" sample_borrowed
     = (inl (ValueError "Movie is already borrowed by Alice."),
        sample_borrowed).
Proof.
  assert (reachable sample_borrowed) as Hr
    by (unfold sample_borrowed, sample_one;
        apply reachable_call, reachable_call, reachable_init).
  assert (strip "Bob" <> "") as Hb by (vm_compute; congruence).
  split; [exact Hr|]. split; [reflexivity|]. split; [reflexivity|].
  split; [exact Hb|].
  destruct (proj1 (proj1 (borrow_return_rejected sample_borrowed "id1" _
                            Hr eq_refl)
                     eq_refl "t1" "t2" "Bob") Hb)
    as (name & e & Hname & -> & _ & He & _).
  vm_compute in Hname. injection Hname as <-. exact He.
Defined.

(** ** Runs of [list_movies] and [search_movies] *)

Section Listing.

Lemma filter_sublist {A} (p : A -> bool) l : List.filter p l `sublist_of` l.
Proof.
  induction l as [|x l IH]; simpl; [constructor|].
  destruct (p x); by constructor.
Qed.

Lemma filter_Forall {A} (P : A -> Prop) (p : A -> bool) l :
  Forall P l -> Forall P (List.filter p l).
Proof.
  rewrite !Forall_forall. intros H x Hx%list_elem_of_In%filter_In.
  apply H, list_elem_of_In, Hx.
Qed.

Lemma filter_filter_and {A} (p q : A -> bool) l :
  List.filter p (List.filter q l) = List.filter (fun x => q x && p x) l.
Proof.
  induction l as [|x l IH]; simpl; [done|].
  destruct (q x); simpl; [|done]. destruct (p x); by rewrite IH.
Qed.

Lemma filter_if {A} (c : bool) (p : A -> bool) l :
  (if c then List.filter p l else l)
  = List.filter (fun x => if c then p x else true) l.
Proof.
  destruct c; [done|]. induction l as [|x l IH]; simpl; congruence.
Qed.

Lemma filter_map_comm {A B} (f : A -> B) (p : B -> bool) l :
  List.filter p (map f l) = map f (List.filter (fun x => p (f x)) l).
Proof.
  induction l as [|x l IH]; simpl; [done|].
  destruct (p (f x)); simpl; by rewrite IH.
Qed.

(** Reading back a block of freshly allocated objects. *)
Lemma lookup_total_block `{!Inhabited A} (d l : list A) :
  map (fun i => (d ++ l)%list !!! i) (seq (length d) (length l)) = l.
Proof.
  revert d. induction l as [|x l IH]; intros d; simpl; [done|]. f_equal.
  - rewrite lookup_total_app_r by done. by rewrite Nat.sub_diag.
  - specialize (IH (d ++ [x])%list). rewrite length_app in IH. simpl in IH.
    rewrite <- app_assoc in IH. simpl in IH.
    by replace (S (length d)) with (length d + 1)%nat by lia.
Qed.

(** Copying allocated dicts one after the other. *)
Lemma mapM_public_run items w :
  Forall (fun a => (a < length (dicts w))%nat) items ->
  mapM _movie_public items w
  = (inr (seq (length (dicts w)) (length items)),
     World (dicts w ++ map (dict_at w) items) (lists w) (_movies w)).
Proof.
  revert w. induction items as [|x items IH]; intros w Hall.
  - simpl. unfold ret. rewrite app_nil_r. by destruct w.
  - apply Forall_cons in Hall as [Hx Hall]. simpl. run_monad.
    rewrite IH; simpl.
    + rewrite length_app, <- app_assoc. simpl.
      replace (length (dicts w) + 1)%nat with (S (length (dicts w))) by lia.
      do 4 f_equal. apply map_ext_in. intros a Ha%list_elem_of_In.
      apply (dict_at_old _ _ _ (lists w) _ (_movies w)).
      by apply (proj1 (Forall_forall _ _) Hall).
    + eapply Forall_impl; [exact Hall|]. intros a Ha. simpl in Ha.
      rewrite length_app. lia.
Qed.

Lemma map_dict_at_block w items :
  map (dict_at (World (dicts w ++ map (dict_at w) items)
                      (lists w) (_movies w)))
      (seq (length (dicts w)) (length items))
  = map (dict_at w) items.
Proof.
  unfold dict_at at 1. simpl.
  rewrite <- (length_map (dict_at w) items) at 1. apply lookup_total_block.
Qed.

Lemma py_sort_alloc w kf items :
  Forall (fun a => (a < length (dicts w))%nat) items ->
  Forall (fun a => (a < length (dicts w))%nat) (py_sort kf items).
Proof. intros H. by rewrite py_sort_perm. Qed.

Lemma list_movies_run (only_available : bool) w :
  alloc_ok w ->
  let items :=
    py_sort (sort_key w)
      (List.filter
         (fun m => if only_available
                   then negb (m_borrowed (dict_at w m)) else true)
         (dict_values (_movies w))) in
  list_movies only_available w
  = (inr (seq (length (dicts w)) (length items)),
     World (dicts w ++ map (dict_at w) items) (lists w) (_movies w)).
Proof.
  intros Hw items. unfold list_movies. run_monad.
  rewrite filter_if. fold items. apply mapM_public_run.
  apply py_sort_alloc. by apply filter_Forall.
Qed.

(** The chain of optional filters of [search_movies] is one filter. *)
Lemma filters_fuse {A} (c1 c2 c4 c5 : bool) (y : option Z)
    (p1 p2 p4 p5 : A -> bool) (p3 : Z -> A -> bool) (l : list A) :
  let r1 := if c1 then List.filter p1 l else l in
  let r2 := if c2 then List.filter p2 r1 else r1 in
  let r3 := match y with Some y => List.filter (p3 y) r2 | None => r2 end in
  let r4 := if c4 then List.filter p4 r3 else r3 in
  let r5 := if c5 then List.filter p5 r4 else r4 in
  r5 = List.filter
         (fun x => (if c1 then p1 x else true)
                   && (if c2 then p2 x else true)
                   && (match y with Some y => p3 y x | None => true end)
                   && (if c4 then p4 x else true)
                   && (if c5 then p5 x else true)) l.
Proof.
  intros r1 r2 r3 r4 r5.
  assert (r3 = List.filter
                 (fun x => match y with Some y => p3 y x | None => true end)
                 r2) as E3.
  { unfold r3. destruct y; [done|]. induction r2; simpl; congruence. }
  unfold r5. rewrite (filter_if c5 p5 r4).
  unfold r4. rewrite (filter_if c4 p4 r3), E3.
  unfold r2. rewrite (filter_if c2 p2 r1).
  unfold r1. rewrite (filter_if c1 p1 l).
  by rewrite !(filter_filter_and _ _ l).
Qed.

Lemma search_movies_run query year genre director only_available w :
  alloc_ok w ->
  let items :=
    py_sort (sort_key w)
      (List.filter
         (keeps w (lower (strip (or_empty query))) year
                (lower (strip (or_empty genre)))
                (lower (strip (or_empty director))) only_available)
         (dict_values (_movies w))) in
  search_movies query year genre director only_available w
  = (inr (seq (length (dicts w)) (length items)),
     World (dicts w ++ map (dict_at w) items) (lists w) (_movies w)).
Proof.
  intros Hw items. unfold search_movies.
  unfold bind at 1 2 3 4 5 6 7, gets. cbn [fst snd].
  rewrite (filters_fuse only_available _ _ _ year
             (fun m => negb (m_borrowed (dict_at w m)))
             (fun m => contains _ (lower (m_title (dict_at w m))))
             (fun m => existsb _ (list_at w (m_genres (dict_at w m))))
             (fun m => negb (find _ _ =? -1))
             (fun y m => m_year (dict_at w m) =? y)).
  apply mapM_public_run.
  apply py_sort_alloc. by apply filter_Forall.
Qed.

End Listing.

(** ** The order of listings *)

Section Ordering.

(** The strict key order is the lexicographic one: lower-case title, then
    year, then id. *)
Lemma key_ltb_lex t1 y1 i1 t2 y2 i2 :
  key_ltb (t1, y1, i1) (t2, y2, i2) = true
  <-> String.ltb t1 t2 = true
      \/ t1 = t2 /\ (y1 < y2 \/ y1 = y2 /\ String.ltb i1 i2 = true).
Proof.
  unfold key_ltb, String.ltb. simpl.
  assert (t1 = t2 <-> (t1 ?= t2)%string = Eq) as Ht.
  { split; [intros ->; apply string_compare_refl|].
    apply String.compare_eq_iff. }
  destruct (Z.compare_spec y1 y2) as [Hy|Hy|Hy];
    destruct (t1 ?= t2)%string, (i1 ?= i2)%string;
    intuition (try congruence; try lia).
Qed.

(** In a well-formed world no two stored records have the same key. *)
Lemma sort_key_NoDup w :
  wf w -> NoDup (map (sort_key w) (dict_values (_movies w))).
Proof.
  intros [_ Hids Hkeys _].
  apply (NoDup_fmap_1 (fun k : key => snd k)).
  unfold dict_values. rewrite <- !list_fmap_compose.
  erewrite list_fmap_ext; [exact Hkeys|].
  intros i e He%list_elem_of_lookup_2. simpl.
  by apply (proj1 (Forall_forall _ _) Hids e).
Qed.

Lemma sorted_items w (p : addr -> bool) :
  wf w ->
  let items := py_sort (sort_key w)
                 (List.filter p (dict_values (_movies w))) in
  StronglySorted (le_by movie_key) (map (dict_at w) items)
  /\ StronglySorted (lt_by movie_key) (map (dict_at w) items).
Proof.
  intros Hw items. split.
  - apply (StronglySorted_fmap _ (le_by (sort_key w))); [done|].
    apply py_sort_sorted.
  - apply (StronglySorted_fmap _ (lt_by (sort_key w))); [done|].
    apply py_sort_strict.
    eapply sublist_NoDup; [apply sort_key_NoDup, Hw|].
    apply fmap_sublist, filter_sublist.
Qed.

End Ordering.

(** C6. [list_movies] and [search_movies] return their records in the
    order of the key (title in lower case, then year, then id), compared
    from left to right, strings by code point.  On keys this is a total
    order, and no two records of a reachable world share a key, so each
    record is strictly below the ones after it.  The result of
    [list_movies] is a rearrangement of the records of the collection (of
    those not borrowed, with [only_available]), and the result of
    [search_movies] a rearrangement of the records of the collection that
    pass its tests; each is the only rearrangement in that order.  Records
    titled b, A, a of the years 2000, 1999, 2001 are listed as A (1999),
    a (2001), b (2000). *)
Theorem listing_sorted w only_available query year genre director :
  reachable w ->
  (exists l w',
     list_movies only_available w = (inr l, w')
     /\ map (dict_at w') l
        ≡ₚ List.filter
             (fun m => if only_available then negb (m_borrowed m) else true)
             (records w)
     /\ StronglySorted (lt_by movie_key) (map (dict_at w') l)
     /\ (forall rs,
           rs ≡ₚ map (dict_at w') l ->
           StronglySorted (lt_by movie_key) rs ->
           rs = map (dict_at w') l))
  /\ (exists l w',
        search_movies query year genre director only_available w
        = (inr l, w')
        /\ map (dict_at w') l
           ≡ₚ List.filter
                (passes w (lower (strip (or_empty query))) year
                        (lower (strip (or_empty genre)))
                        (lower (strip (or_empty director))) only_available)
                (records w)
        /\ StronglySorted (lt_by movie_key) (map (dict_at w') l)
        /\ (forall rs,
              rs ≡ₚ map (dict_at w') l ->
              StronglySorted (lt_by movie_key) rs ->
              rs = map (dict_at w') l))
  /\ (forall m1 m2,
        lt_by movie_key m1 m2
        <-> String.ltb (lower (m_title m1)) (lower (m_title m2)) = true
            \/ lower (m_title m1) = lower (m_title m2)
               /\ (m_year m1 < m_year m2
                   \/ m_year m1 = m_year m2
                      /\ String.ltb (m_id m1) (m_id m2) = true))
  /\ (forall k1 k2, key_le k1 k2 \/ key_le k2 k1)
  /\ (forall k1 k2, key_le k1 k2 -> key_le k2 k1 -> k1 = k2)
  /\ (forall k1 k2 k3, key_le k1 k2 -> key_le k2 k3 -> key_le k1 k3)
  /\ (exists l w',
        list_movies false sample_three = (inr l, w')
        /\ map (fun a => (m_title (dict_at w' a), m_year (dict_at w' a))) l
           = [("A", 1999); ("a", 2001); ("b", 2000)]).
Proof.
  intros Hw%reachable_wf.
  assert (alloc_ok w) as Ha by apply Hw.
  assert (forall l : list movie,
            StronglySorted (lt_by movie_key) l ->
            forall rs, rs ≡ₚ l -> StronglySorted (lt_by movie_key) rs ->
                       rs = l) as Hone.
  { intros l Hl rs Hperm Hrs.
    apply (StronglySorted_unique_strong (lt_by movie_key)); [|done|done|done].
    intros m1 m2 _ _ H12 H21. by destruct (lt_by_asym _ _ _ H12 H21). }
  split; [|split; [|repeat split]].
  - eexists _, _. split; [by apply list_movies_run|].
    rewrite map_dict_at_block. split; [|split].
    + rewrite py_sort_perm. unfold records. by rewrite filter_map_comm.
    + by apply sorted_items.
    + apply Hone. by apply sorted_items.
  - eexists _, _. split; [by apply search_movies_run|].
    rewrite map_dict_at_block. split; [|split].
    + rewrite py_sort_perm. unfold records. by rewrite filter_map_comm.
    + by apply sorted_items.
    + apply Hone. by apply sorted_items.
  - apply key_ltb_lex.
  - apply key_ltb_lex.
  - apply key_le_total.
  - apply key_le_antisym.
  - apply key_le_trans.
  - eexists _, _. split; [vm_compute; reflexivity|]. by vm_compute.
Qed.

Lemma listing_sorted_witness :
  reachable sample_three
  /\ (exists l w',
        list_movies false sample_three = (inr l, w')
        /\ StronglySorted (lt_by movie_key) (map (dict_at w') l))
  /\ (exists l w',
        search_movies (Some "a") None None None false sample_three
        = (inr l, w')
        /\ map (dict_at w') l
           ≡ₚ List.filter (passes sample_three "a" None "" "" false)
                          (records sample_three)
        /\ StronglySorted (lt_by movie_key) (map (dict_at w') l)).
Proof.
  assert (reachable sample_three) as Hr
    by (unfold sample_three; do 3 apply reachable_call;
        apply reachable_init).
  split; [exact Hr|].
  destruct (listing_sorted sample_three false (Some "a") None None None Hr)
    as ((l & w' & H1 & _ & H2 & _) & (l2 & w2 & H3 & H4 & H5 & _) & _).
  split; [by exists l, w'|]. by exists l2, w2.
Defined.

(** ** The filters of [search_movies] *)

Section Filters.

Lemma strip_empty : strip "" = "".
Proof. done. Qed.

(** An optional filter of the code against its reading in words: the test
    runs on the trimmed lower-case filter, and only when that is not
    empty. *)
Lemma filter_test f (test : string -> bool) (T : string -> Prop) :
  (forall x, x <> "" -> test x = true <-> T x) ->
  (if negb (is_empty (lower (strip (or_empty f))))
   then test (lower (strip (or_empty f))) else true) = true
  <-> forall q, filter_of f = Some q -> T (lower q).
Proof.
  intros Htest. unfold filter_of.
  destruct f as [s|]; simpl; [|split; [by intros _ q|done]].
  rewrite is_empty_lower.
  destruct (is_empty (strip s)) eqn:E; simpl; [done|].
  rewrite Htest.
  - split; [by intros H q [= <-] | auto].
  - apply is_empty_false. by rewrite is_empty_lower.
Qed.

Lemma substring_of_empty needle : substring_of needle "" -> needle = "".
Proof.
  intros (pre & post & H). destruct pre; [|done]. simpl in H.
  by destruct needle.
Qed.

Lemma keeps_matches w query year genre director only_available a :
  keeps w (lower (strip (or_empty query))) year
        (lower (strip (or_empty genre)))
        (lower (strip (or_empty director))) only_available a = true
  <-> matches w query year genre director only_available (dict_at w a).
Proof.
  unfold keeps, matches, matches_with. rewrite !andb_true_iff.
  set (m := dict_at w a).
  rewrite (filter_test query
             (fun q => contains q (lower (m_title m)))
             (fun q => substring_of q (lower (m_title m))))
    by (intros x _; apply contains_spec).
  rewrite (filter_test genre
             (fun g => existsb (fun gg => String.eqb g (lower gg))
                               (list_at w (m_genres m)))
             (fun g => exists gg, In gg (genres_of w m) /\ lower gg = g)).
  2:{ intros x _. rewrite existsb_exists. unfold genres_of.
      split; intros (gg & Hin & Heq); exists gg; split; try done.
      - by apply String.eqb_eq in Heq.
      - by apply String.eqb_eq. }
  rewrite (filter_test director
             (fun d => negb (find (lower (or_empty (m_director m))) d =? -1))
             (fun d => exists dir, m_director m = Some dir
                                   /\ substring_of d (lower dir))).
  2:{ intros x Hx. rewrite negb_true_iff, Z.eqb_neq, find_spec.
      destruct (m_director m) as [dir|]; simpl.
      - split; [intros H; by exists dir | by intros (? & [= <-] & H)].
      - split; [by intros H%substring_of_empty | by intros (? & ? & _)]. }
  assert ((if only_available then negb (m_borrowed m) else true) = true
          <-> (only_available = true -> m_borrowed m = false)) as ->.
  { destruct only_available, (m_borrowed m); simpl; split; auto.
    intros H. by specialize (H eq_refl). }
  assert (match year with Some y => m_year m =? y | None => true end = true
          <-> (forall y, year = Some y -> m_year m = y)) as ->.
  { destruct year as [y|]; [|done]. rewrite Z.eqb_eq.
    split; [by intros H ? [= <-] | auto]. }
  tauto.
Qed.

End Filters.

(** C7, as the code has it.  [search_movies] returns the records of the
    collection that pass every provided filter, and no other: the query
    occurs in the title, the year is the record's, the genre is one of the
    record's genres, the director filter occurs in the record's director
    (a record without director passes no director filter); strings are
    compared in lower case, and each filter string is trimmed first.  A
    filter string that is empty after trimming filters nothing, like one
    that is not provided. *)
Theorem search_movies_conjunctive w query year genre director only_available :
  reachable w ->
  (exists l w',
     search_movies query year genre director only_available w = (inr l, w')
     /\ forall r,
          r ∈ map (dict_at w') l
          <-> r ∈ records w
              /\ matches w query year genre director only_available r)
  /\ (forall s, strip s = "" ->
        search_movies (Some s) year genre director only_available w
        = search_movies None year genre director only_available w)
  /\ (forall s, strip s = "" ->
        search_movies query year (Some s) director only_available w
        = search_movies query year None director only_available w)
  /\ (forall s, strip s = "" ->
        search_movies query year genre (Some s) only_available w
        = search_movies query year genre None only_available w).
Proof.
  intros Hw%reachable_wf.
  assert (alloc_ok w) as Ha by apply Hw.
  split; [|repeat split; intros s Hs; unfold search_movies;
           cbn [or_empty]; by rewrite Hs].
  eexists _, _. split; [by apply search_movies_run|].
  intros r. rewrite map_dict_at_block. unfold records.
  rewrite !list_elem_of_fmap. split.
  - intros (a & -> & Hin). rewrite py_sort_perm in Hin.
    apply list_elem_of_In, filter_In in Hin as [Hin Hk].
    split; [exists a; by rewrite list_elem_of_In|].
    by apply keeps_matches.
  - intros [(a & -> & Hin) Hm]. exists a. split; [done|].
    rewrite py_sort_perm. apply list_elem_of_In, filter_In.
    split; [by apply list_elem_of_In|]. by apply keeps_matches.
Qed.

Lemma search_movies_conjunctive_witness :
  reachable sample_one
  /\ exists l w',
       search_movies (Some " DUNE ") (Some 2021) (Some "sci-fi") None true
                     sample_one = (inr l, w')
       /\ (dict_at sample_one 0%nat ∈ map (dict_at w') l
           <-> dict_at sample_one 0%nat ∈ records sample_one
               /\ matches sample_one (Some " DUNE ") (Some 2021)
                          (Some "sci-fi") None true
                          (dict_at sample_one 0%nat)).
Proof.
  assert (reachable sample_one) as Hr
    by (unfold sample_one; apply reachable_call, reachable_init).
  split; [exact Hr|].
  destruct (proj1 (search_movies_conjunctive sample_one (Some " DUNE ")
                     (Some 2021) (Some "sci-fi") None true Hr))
    as (l & w' & H1 & H2).
  exists l, w'. split; [exact H1|]. apply H2.
Defined.

(** C7 as stated fails where a filter string has blanks around it: the
    query "une " is not a part of the title "Dune" in any case of the
    letters, and the record is returned all the same. *)
Lemma search_trims_filters :
  exists l w' r,
    search_movies (Some "une ") None None None false sample_one = (inr l, w')
    /\ r ∈ map (dict_at w') l
    /\ m_title r = "Dune"
    /\ ~ substring_of (lower "une ") (lower (m_title r))
    /\ ~ literal_matches sample_one (Some "une ") None None None false r.
Proof.
  eexists _, _, _. split; [vm_compute; reflexivity|].
  split; [apply list_elem_of_here|]. split; [reflexivity|].
  assert (~ substring_of (lower "une ") (lower "Dune")) as Hno.
  { intros H%contains_spec. by vm_compute in H. }
  split; [exact Hno|].
  intros (_ & Hq & _). apply Hno. by apply (Hq "une ").
Qed.

(** ** What a caller can do with a returned record *)

Section Hoare.

Lemma hoare_bind {A B} P (Q : A -> world -> Prop) (R : B -> world -> Prop)
    (c : M A) (k : A -> M B) :
  hoare P c Q -> (forall x, hoare (Q x) (k x) R) -> hoare P (bind c k) R.
Proof.
  intros Hc Hk w Hw y w'. unfold bind.
  destruct (c w) as [[e|x] w1] eqn:E; [done|].
  apply (Hk x w1). by apply (Hc w Hw).
Qed.

Lemma hoare_ret {A} (P : world -> Prop) (x : A) :
  hoare P (ret x) (fun _ => P).
Proof. by intros w Hw y w' [= _ <-]. Qed.

Lemma hoare_raise {A} P e (Q : A -> world -> Prop) : hoare P (raise e) Q.
Proof. by intros w Hw y w'. Qed.

Lemma hoare_gets {A} (P : world -> Prop) (f : world -> A) :
  hoare P (gets f) (fun _ => P).
Proof. by intros w Hw y w' [= _ <-]. Qed.

Lemma hoare_setitem m a f :
  hoare (refers_to m) (setitem a f) (fun _ => refers_to m).
Proof.
  intros w [H1 H2] y w' [= _ <-]. split; [|done].
  unfold alloc_ok in *. simpl. by rewrite length_alter.
Qed.

Lemma hoare_new_list m l :
  hoare (refers_to m) (new_list l) (fun _ => refers_to m).
Proof. by intros w [H1 H2] y w' [= _ <-]. Qed.

Lemma hoare_require movie_id :
  hoare alloc_ok (_require_movie movie_id) refers_to.
Proof.
  intros w Hw m w'. unfold _require_movie. run_monad.
  destruct (dict_get movie_id (_movies w)) as [m'|] eqn:E; [|done].
  intros [= <- <-]. split; [done|].
  apply dict_get_elem in E. by apply (list_elem_of_fmap_2 snd _ (movie_id, m')).
Qed.

(** The copy made by [_movie_public] is a shallow copy. *)
Lemma hoare_public m :
  hoare (refers_to m) (_movie_public m) (fun a w => shallow_copy w a).
Proof.
  intros w [H1 H2] a w'. run_monad. intros [= <- <-].
  pose proof (proj1 (Forall_forall _ _) H1) as Hlt. simpl.
  split.
  - intros Hin%Hlt. lia.
  - exists m. split; [done|].
    rewrite dict_at_new.
    symmetry. apply (dict_at_old _ _ _ (lists w) _ (_movies w)). auto.
Qed.

Lemma shallow_copy_get movie_id :
  hoare alloc_ok (get_movie movie_id) (fun a w => shallow_copy w a).
Proof.
  eapply hoare_bind; [apply hoare_require|]. intros m. apply hoare_public.
Qed.

Lemma shallow_copy_update now movie_id title year genres director :
  hoare alloc_ok (update_movie now movie_id title year genres director)
        (fun a w => shallow_copy w a).
Proof.
  unfold update_movie.
  eapply hoare_bind; [apply hoare_require|]. intros m.
  apply (hoare_bind _ (fun _ => refers_to m)).
  { destruct title as [t|]; [|apply hoare_ret].
    destruct (is_empty (strip t)); [apply hoare_raise|apply hoare_setitem]. }
  intros ?. apply (hoare_bind _ (fun _ => refers_to m)).
  { destruct year as [y|]; [|apply hoare_ret].
    destruct ((y <? 1878) || (y >? 3000));
      [apply hoare_raise|apply hoare_setitem]. }
  intros ?. apply (hoare_bind _ (fun _ => refers_to m)).
  { destruct genres as [gs|]; [|apply hoare_ret].
    eapply hoare_bind; [apply hoare_new_list|]. intros gl.
    apply hoare_setitem. }
  intros ?. apply (hoare_bind _ (fun _ => refers_to m)).
  { destruct director as [d|]; [apply hoare_setitem|apply hoare_ret]. }
  intros ?. eapply hoare_bind; [apply hoare_setitem|].
  intros ?. apply hoare_public.
Qed.

Lemma shallow_copy_setitem4 m f1 f2 f3 f4 :
  hoare (refers_to m)
        (setitem m f1 ;; setitem m f2 ;; setitem m f3 ;; setitem m f4 ;;
         _movie_public m)
        (fun a w => shallow_copy w a).
Proof.
  do 4 (eapply hoare_bind; [apply hoare_setitem|]; intros ?).
  apply hoare_public.
Qed.

Lemma shallow_copy_borrow now1 now2 movie_id borrower :
  hoare alloc_ok (borrow_movie now1 now2 movie_id borrower)
        (fun a w => shallow_copy w a).
Proof.
  unfold borrow_movie.
  destruct (is_empty (strip borrower)); [apply hoare_raise|].
  eapply hoare_bind; [apply hoare_require|]. intros m.
  eapply hoare_bind; [apply hoare_gets|]. intros r.
  destruct (m_borrowed r); [apply hoare_raise|apply shallow_copy_setitem4].
Qed.

Lemma shallow_copy_return now movie_id :
  hoare alloc_ok (return_movie now movie_id) (fun a w => shallow_copy w a).
Proof.
  unfold return_movie.
  eapply hoare_bind; [apply hoare_require|]. intros m.
  eapply hoare_bind; [apply hoare_gets|]. intros r.
  destruct (negb (m_borrowed r));
    [apply hoare_raise|apply shallow_copy_setitem4].
Qed.

Lemma shallow_copy_add uuid4 now1 now2 title year genres director :
  hoare alloc_ok (add_movie uuid4 now1 now2 title year genres director)
        (fun a w => shallow_copy w a).
Proof.
  intros w Hw a w' Hrun.
  destruct (is_empty (strip title)) eqn:Ht;
    [unfold add_movie in Hrun; by rewrite Ht in Hrun|].
  destruct ((year <? 1878) || (year >? 3000)) eqn:Hy;
    [unfold add_movie in Hrun; by rewrite Ht, Hy in Hrun|].
  rewrite add_movie_ok in Hrun by done. injection Hrun as <- <-.
  pose proof (proj1 (Forall_forall _ _) Hw) as Hlt.
  split; simpl.
  - intros (e & He1 & He2)%list_elem_of_fmap.
    apply dict_set_elem in He2 as [->|He2]; simpl in He1; [lia|].
    apply (list_elem_of_fmap_2 snd) in He2. apply Hlt in He2. lia.
  - exists (length (dicts w)). split.
    + apply (list_elem_of_fmap_2 snd _ (uuid4, length (dicts w))).
      apply dict_get_elem, dict_get_set.
    + by rewrite dict_at_first, dict_at_second.
Qed.

(** The copies handed out by a listing. *)
Lemma shallow_copy_block w items :
  alloc_ok w ->
  Forall (fun a => a ∈ dict_values (_movies w)) items ->
  Forall (shallow_copy (World (dicts w ++ map (dict_at w) items)
                              (lists w) (_movies w)))
         (seq (length (dicts w)) (length items)).
Proof.
  intros Hw Hitems.
  pose proof (proj1 (Forall_forall _ _) Hw) as Hlt.
  pose proof (map_dict_at_block w items) as Hblock.
  assert (forall s, (s < length (dicts w))%nat ->
            dict_at (World (dicts w ++ map (dict_at w) items)
                           (lists w) (_movies w)) s = dict_at w s) as Hold.
  { intros s Hs. by apply (dict_at_old _ _ _ (lists w) _ (_movies w)). }
  set (w' := World _ _ _) in *.
  apply Forall_forall. intros a Ha. split; simpl.
  - intros Hin%Hlt. apply elem_of_seq in Ha. lia.
  - assert (dict_at w' a ∈ map (dict_at w) items) as Hin.
    { rewrite <- Hblock. by apply list_elem_of_fmap_2. }
    apply list_elem_of_fmap in Hin as (s & Hs1 & Hs2).
    exists s. apply (proj1 (Forall_forall _ _) Hitems) in Hs2 as Hs3.
    split; [done|]. rewrite Hs1. symmetry. auto.
Qed.

Lemma shallow_copy_list only_available :
  hoare alloc_ok (list_movies only_available)
        (fun l w => Forall (shallow_copy w) l).
Proof.
  intros w Hw l w'. rewrite list_movies_run by done. intros [= <- <-].
  apply shallow_copy_block; [done|]. rewrite py_sort_perm.
  apply Forall_forall. intros a Ha%list_elem_of_In%filter_In.
  apply list_elem_of_In, Ha.
Qed.

Lemma shallow_copy_search query year genre director only_available :
  hoare alloc_ok
        (search_movies query year genre director only_available)
        (fun l w => Forall (shallow_copy w) l).
Proof.
  intros w Hw l w'. rewrite search_movies_run by done. intros [= <- <-].
  apply shallow_copy_block; [done|]. rewrite py_sort_perm.
  apply Forall_forall. intros a Ha%list_elem_of_In%filter_In.
  apply list_elem_of_In, Ha.
Qed.

Lemma shallow_copy_run c :
  hoare alloc_ok (run c) (fun r w => Forall (shallow_copy w) (returned r)).
Proof.
  destruct c; simpl.
  - eapply hoare_bind; [apply shallow_copy_add|].
    intros a w Hw r w' [= <- <-]. by apply Forall_singleton.
  - eapply hoare_bind; [apply shallow_copy_get|].
    intros a w Hw r w' [= <- <-]. by apply Forall_singleton.
  - eapply hoare_bind; [apply shallow_copy_list|].
    by intros a w Hw r w' [= <- <-].
  - eapply hoare_bind; [apply shallow_copy_search|].
    by intros a w Hw r w' [= <- <-].
  - eapply hoare_bind; [apply shallow_copy_update|].
    intros a w Hw r w' [= <- <-]. by apply Forall_singleton.
  - intros w Hw r w'. unfold bind.
    destruct (delete_movie movie_id w) as [[e|x] w1]; [done|].
    intros [= <- <-]. constructor.
  - eapply hoare_bind; [apply shallow_copy_borrow|].
    intros a w Hw r w' [= <- <-]. by apply Forall_singleton.
  - eapply hoare_bind; [apply shallow_copy_return|].
    intros a w Hw r w' [= <- <-]. by apply Forall_singleton.
Qed.

(** Assigning to a key of a dict the store does not refer to shows nowhere
    in the store. *)
Lemma assign_outside_store a f w :
  a ∉ dict_values (_movies w) ->
  store_view (snd (setitem a f w)) = store_view w.
Proof.
  intros Ha. unfold store_view. simpl. apply map_ext_in.
  intros e He%list_elem_of_In.
  assert (dict_at (World (alter f a (dicts w)) (lists w) (_movies w)) (snd e)
          = dict_at w (snd e)) as ->; [|done].
  rewrite (dict_at_alter _ _ _ _ (lists w) _ (_movies w)).
  destruct w as [d l mv]. simpl in *.
  rewrite decide_False; [done|]. intros [-> _]. apply Ha.
  by apply list_elem_of_fmap_2.
Qed.

End Hoare.

(** C2, as the code has it.  A record handed to a caller is a shallow copy
    of a stored record: a dict of its own, which the store does not refer
    to, holding the items of a dict of the store.  Assigning to its keys
    changes nothing in the store.  The list under ["genres"] is not copied:
    it is the list object of the stored record. *)
Theorem returned_records_are_shallow_copies w c r w' a :
  reachable w -> run c w = (inr r, w') -> a ∈ returned r ->
  (a ∉ dict_values (_movies w'))
  /\ (exists s, s ∈ dict_values (_movies w')
                /\ dict_at w' a = dict_at w' s
                /\ m_genres (dict_at w' a) = m_genres (dict_at w' s))
  /\ (forall f, store_view (snd (mutate a (Assign f) w')) = store_view w').
Proof.
  intros Hw%reachable_wf Hrun Ha.
  pose proof (shallow_copy_run c w (wf_alloc w Hw) r w' Hrun) as Hall.
  apply (proj1 (Forall_forall _ _) Hall) in Ha as [Hfresh (s & Hs1 & Hs2)].
  split; [done|]. split.
  - exists s. by rewrite Hs2.
  - intros f. by apply assign_outside_store.
Qed.

Lemma returned_records_are_shallow_copies_witness :
  reachable sample_one
  /\ run (Get "id1") sample_one
     = (inr (ARecord 2%nat), snd (run (Get "id1") sample_one))
  /\ 2%nat ∈ returned (ARecord 2%nat)
  /\ store_view (snd (mutate 2%nat (Assign (set_title "Arrakis"))
                             (snd (run (Get "id1") sample_one))))
     = store_view (snd (run (Get "id1") sample_one)).
Proof.
  assert (reachable sample_one) as Hr
    by (unfold sample_one; apply reachable_call, reachable_init).
  assert (2%nat ∈ returned (ARecord 2%nat)) as Hin
    by apply list_elem_of_here.
  split; [exact Hr|]. split; [reflexivity|]. split; [exact Hin|].
  exact (proj2 (proj2 (returned_records_are_shallow_copies sample_one
                         (Get "id1") (ARecord 2%nat) _ 2%nat Hr eq_refl Hin))
               (set_title "Arrakis")).
Defined.

(** C2 as stated fails: appending to the genres list of a returned record
    changes the genres of the stored record. *)
Lemma genres_list_is_shared :
  exists a w',
    run (Get "id1") sample_one = (inr (ARecord a), w')
    /\ a ∈ returned (ARecord a)
    /\ store_view (snd (mutate a (GenresAppend "Horror") w'))
       <> store_view w'.
Proof.
  eexists _, _. split; [vm_compute; reflexivity|].
  split; [apply list_elem_of_here|]. by vm_compute.
Qed.

(** * Further properties of the operations *)

(** ** Calls that raise *)

Lemma stored_None w movie_id :
  stored w movie_id = None <-> dict_get movie_id (_movies w) = None.
Proof. unfold stored. by destruct (dict_get movie_id (_movies w)). Qed.

Lemma stored_Some w movie_id r :
  stored w movie_id = Some r
  <-> exists m, dict_get movie_id (_movies w) = Some m /\ r = dict_at w m.
Proof.
  unfold stored. destruct (dict_get movie_id (_movies w)) as [m|]; simpl.
  - split; [intros [= <-]; by exists m | by intros (? & [= <-] & ->)].
  - split; [done | by intros (? & ? & _)].
Qed.

Lemma require_missing movie_id w :
  dict_get movie_id (_movies w) = None ->
  _require_movie movie_id w
  = (inl (ValueError ("Movie not found: " ++ movie_id)), w).
Proof. intros H. run_monad. by rewrite H. Qed.

Lemma require_found movie_id w m :
  dict_get movie_id (_movies w) = Some m ->
  _require_movie movie_id w = (inr m, w).
Proof. intros H. run_monad. by rewrite H. Qed.

(** X1. Under an id the store does not hold, [get_movie], [update_movie],
    [delete_movie], [return_movie], and [borrow_movie] with a borrower that
    is not blank, raise the not-found error, whose message ends in the id,
    and leave the world as it is. *)
Theorem missing_id_rejected w movie_id :
  stored w movie_id = None ->
  let e := ValueError ("Movie not found: " ++ movie_id) in
  kind_of e = Some NotFound
  /\ get_movie movie_id w = (inl e, w)
  /\ (forall now title year genres director,
        update_movie now movie_id title year genres director w = (inl e, w))
  /\ delete_movie movie_id w = (inl e, w)
  /\ (forall now1 now2 borrower,
        strip borrower <> "" ->
        borrow_movie now1 now2 movie_id borrower w = (inl e, w))
  /\ (forall now, return_movie now movie_id w = (inl e, w)).
Proof.
  intros Hm%stored_None e. repeat split.
  - unfold get_movie, bind. by rewrite require_missing.
  - intros. unfold update_movie, bind. by rewrite require_missing.
  - unfold delete_movie, bind. by rewrite require_missing.
  - intros now1 now2 borrower Hb%is_empty_false.
    unfold borrow_movie. rewrite Hb. unfold bind.
    by rewrite require_missing.
  - intros. unfold return_movie, bind. by rewrite require_missing.
Qed.

Lemma missing_id_rejected_witness :
  stored sample_one "id2" = None
  /\ get_movie "id2" sample_one
     = (inl (ValueError "Movie not found: id2"), sample_one).
Proof.
  split; [reflexivity|].
  exact (proj1 (proj2 (missing_id_rejected sample_one "id2" eq_refl))).
Defined.

Lemma public_run m w :
  _movie_public m w
  = (inr (length (dicts w)),
     World (dicts w ++ [dict_at w m]) (lists w) (_movies w)).
Proof. done. Qed.

Lemma mapM_public_returns items w :
  exists l w', mapM _movie_public items w = (inr l, w').
Proof.
  revert w. induction items as [|x items IH]; intros w; simpl.
  - by eexists _, _.
  - unfold bind at 1. rewrite public_run. unfold bind at 1.
    destruct (IH (World (dicts w ++ [dict_at w x])%list
                        (lists w) (_movies w))) as (l & w' & ->).
    by eexists _, _.
Qed.

(** X2. A call that raises leaves the world as it was, with one exception:
    [update_movie] given a valid title together with a year out of range
    raises with the new title already in the stored record. *)
Theorem raise_effect c w e w' :
  run c w = (inl e, w') ->
  w' = w
  \/ exists now movie_id title year genres director m,
       c = Update now movie_id (Some title) (Some year) genres director
       /\ strip title <> ""
       /\ (year < 1878 \/ 3000 < year)
       /\ dict_get movie_id (_movies w) = Some m
       /\ e = ValueError "year looks invalid."
       /\ w' = World (alter (set_title (strip title)) m (dicts w))
                     (lists w) (_movies w).
Proof.
  destruct c; simpl; unfold bind at 1.
  - (* add *)
    destruct (is_empty (strip title)) eqn:Ht;
      [unfold add_movie; rewrite Ht; intros [= _ <-]; by left|].
    destruct ((year <? 1878) || (year >? 3000)) eqn:Hy;
      [unfold add_movie; rewrite Ht, Hy; intros [= _ <-]; by left|].
    by rewrite add_movie_ok.
  - (* get *)
    unfold get_movie, bind.
    destruct (dict_get movie_id (_movies w)) as [m|] eqn:Hm.
    + by rewrite (require_found _ _ m).
    + rewrite require_missing by done. intros [= _ <-]. by left.
  - (* list *)
    unfold list_movies.
    unfold bind at 1 2 3, gets. cbn [fst snd].
    match goal with
    | |- context [mapM _movie_public ?items w] =>
        by destruct (mapM_public_returns items w) as (l & w1 & ->)
    end.
  - (* search *)
    unfold search_movies.
    unfold bind at 1 2 3 4 5 6 7, gets. cbn [fst snd].
    match goal with
    | |- context [mapM _movie_public ?items w] =>
        by destruct (mapM_public_returns items w) as (l & w1 & ->)
    end.
  - (* update *)
    unfold update_movie, bind at 1.
    destruct (dict_get movie_id (_movies w)) as [m|] eqn:Hm;
      [rewrite (require_found _ _ m) by done
      |rewrite require_missing by done; intros [= _ <-]; by left].
    destruct title as [t|].
    + destruct (is_empty (strip t)) eqn:Ht;
        [run_monad; intros [= _ <-]; by left|].
      destruct year as [y|].
      * destruct ((y <? 1878) || (y >? 3000)) eqn:Hy.
        -- run_monad. intros [= <- <-]. right.
           exists now, movie_id, t, y, genres, director, m.
           repeat split; try done; [by apply is_empty_false|].
           apply orb_true_iff in Hy as [Hy%Z.ltb_lt|Hy%Z.gtb_gt]; lia.
        -- run_monad. by destruct genres, director.
      * run_monad. by destruct genres, director.
    + destruct year as [y|].
      * destruct ((y <? 1878) || (y >? 3000)) eqn:Hy.
        -- run_monad. intros [= _ <-]. by left.
        -- run_monad. by destruct genres, director.
      * run_monad. by destruct genres, director.
  - (* delete *)
    unfold delete_movie, bind.
    destruct (dict_get movie_id (_movies w)) as [m|] eqn:Hm.
    + by rewrite (require_found _ _ m).
    + rewrite require_missing by done. intros [= _ <-]. by left.
  - (* borrow *)
    unfold borrow_movie.
    destruct (is_empty (strip borrower)) eqn:Hb;
      [intros [= _ <-]; by left|].
    unfold bind at 1.
    destruct (dict_get movie_id (_movies w)) as [m|] eqn:Hm;
      [rewrite (require_found _ _ m) by done
      |rewrite require_missing by done; intros [= _ <-]; by left].
    run_monad. destruct (m_borrowed (dict_at w m)); [|done].
    intros [= _ <-]. by left.
  - (* return *)
    unfold return_movie, bind at 1.
    destruct (dict_get movie_id (_movies w)) as [m|] eqn:Hm;
      [rewrite (require_found _ _ m) by done
      |rewrite require_missing by done; intros [= _ <-]; by left].
    run_monad. destruct (m_borrowed (dict_at w m)); [done|].
    intros [= _ <-]. by left.
Qed.

Lemma raise_effect_witness :
  run (Return "now" "id1") sample_one
  = (inl (ValueError "Movie is not borrowed."), sample_one)
  /\ (sample_one = sample_one
      \/ exists now movie_id title year genres director m,
           Return "now" "id1"
           = Update now movie_id (Some title) (Some year) genres director
           /\ strip title <> ""
           /\ (year < 1878 \/ 3000 < year)
           /\ dict_get movie_id (_movies sample_one) = Some m
           /\ ValueError "Movie is not borrowed."
              = ValueError "year looks invalid."
           /\ sample_one
              = World (alter (set_title (strip title)) m (dicts sample_one))
                      (lists sample_one) (_movies sample_one)).
Proof.
  split; [reflexivity|].
  exact (raise_effect (Return "now" "id1") sample_one _ _ eq_refl).
Defined.

(** ** Reading *)

Section Reading.

Lemma dict_at_extend w ex l mv a :
  (a < length (dicts w))%nat ->
  dict_at (World (dicts w ++ ex) l mv) a = dict_at w a.
Proof. intros H. by apply (dict_at_old _ _ _ (lists w) _ (_movies w)). Qed.

(** New dict objects show nowhere in the store. *)
Lemma store_view_extend w ex :
  alloc_ok w ->
  store_view (World (dicts w ++ ex) (lists w) (_movies w)) = store_view w.
Proof.
  intros Hw. unfold store_view. simpl. apply map_ext_in.
  intros e He%list_elem_of_In.
  rewrite dict_at_extend; [done|].
  apply (proj1 (Forall_forall _ _) Hw). by apply list_elem_of_fmap_2.
Qed.

Lemma stored_extend w ex movie_id :
  alloc_ok w ->
  stored (World (dicts w ++ ex) (lists w) (_movies w)) movie_id
  = stored w movie_id.
Proof.
  intros Hw. unfold stored. simpl.
  destruct (dict_get movie_id (_movies w)) as [m|] eqn:Hm; [|done]. simpl.
  rewrite dict_at_extend; [done|].
  apply (proj1 (Forall_forall _ _) Hw).
  apply dict_get_elem in Hm. by apply (list_elem_of_fmap_2 snd _ (movie_id, m)).
Qed.

Lemma get_movie_found movie_id w m :
  dict_get movie_id (_movies w) = Some m ->
  get_movie movie_id w
  = (inr (length (dicts w)),
     World (dicts w ++ [dict_at w m]) (lists w) (_movies w)).
Proof.
  intros Hm. unfold get_movie, bind. by rewrite (require_found _ _ m).
Qed.

(** The world after a read is the world before it with some dicts more. *)
Lemma read_extends c w :
  alloc_ok w -> target c = None ->
  exists ex,
    snd (run c w) = World (dicts w ++ ex) (lists w) (_movies w).
Proof.
  intros Hw Hc. destruct c; try done; simpl; unfold bind at 1.
  - destruct (dict_get movie_id (_movies w)) as [m|] eqn:Hm.
    + rewrite (get_movie_found _ _ m) by done. by eexists.
    + unfold get_movie, bind. rewrite require_missing by done.
      exists []. simpl. rewrite app_nil_r. by destruct w.
  - rewrite list_movies_run by done. by eexists.
  - rewrite search_movies_run by done. by eexists.
Qed.

End Reading.

(** X3. [get_movie], [list_movies] and [search_movies] change nothing in the
    store, whether they return or raise: [_movies] and every list object
    are as before, and so is every stored record with its genres. *)
Theorem reads_change_nothing c w :
  reachable w -> target c = None ->
  _movies (snd (run c w)) = _movies w
  /\ lists (snd (run c w)) = lists w
  /\ store_view (snd (run c w)) = store_view w
  /\ (forall movie_id, stored (snd (run c w)) movie_id = stored w movie_id).
Proof.
  intros Hw%reachable_wf Hc.
  assert (alloc_ok w) as Ha by apply Hw.
  destruct (read_extends c w Ha Hc) as [ex ->].
  repeat split; [by apply store_view_extend|].
  intros movie_id. by apply stored_extend.
Qed.

Lemma reads_change_nothing_witness :
  reachable sample_three
  /\ target (Search (Some "a") None None None false) = None
  /\ store_view (snd (run (Search (Some "a") None None None false)
                          sample_three))
     = store_view sample_three.
Proof.
  assert (reachable sample_three) as Hr
    by (unfold sample_three; do 3 apply reachable_call;
        apply reachable_init).
  split; [exact Hr|]. split; [reflexivity|].
  exact (proj1 (proj2 (proj2
           (reads_change_nothing (Search (Some "a") None None None false)
                                 sample_three Hr eq_refl)))).
Defined.

(** X4. [get_movie] on a stored id returns a record with the fields of the
    stored one, its genres included. *)
Theorem get_movie_returns_stored w movie_id r :
  reachable w -> stored w movie_id = Some r ->
  exists a w',
    get_movie movie_id w = (inr a, w')
    /\ dict_at w' a = r
    /\ genres_of w' (dict_at w' a) = genres_of w r.
Proof.
  intros Hw%reachable_wf (m & Hm & ->)%stored_Some.
  eexists _, _. split; [by apply get_movie_found|].
  by rewrite dict_at_new.
Qed.

Lemma get_movie_returns_stored_witness :
  reachable sample_borrowed
  /\ stored sample_borrowed "id1" = Some (dict_at sample_borrowed 0%nat)
  /\ exists a w',
       get_movie "id1" sample_borrowed = (inr a, w')
       /\ m_borrowed_by (dict_at w' a) = Some "Alice".
Proof.
  assert (reachable sample_borrowed) as Hr
    by (unfold sample_borrowed, sample_one;
        apply reachable_call, reachable_call, reachable_init).
  split; [exact Hr|]. split; [reflexivity|].
  destruct (get_movie_returns_stored sample_borrowed "id1" _ Hr eq_refl)
    as (a & w' & H1 & H2 & _).
  exists a, w'. split; [exact H1|]. by rewrite H2.
Defined.

(** ** Adding *)

Lemma list_at_new w g d mv :
  list_at (World d (lists w ++ [g]) mv) (length (lists w)) = g.
Proof.
  unfold list_at. simpl. rewrite lookup_app_r by done.
  by rewrite Nat.sub_diag.
Qed.

(** X5. A successful [add_movie] stores, under the new id, a record with
    that id, the trimmed title, the year, the normalized genres and the
    trimmed director (none when blank), and returns a copy of it.  An id
    that is new goes last in the collection, after the ids that were
    there. *)
Theorem add_movie_stores uuid4 now1 now2 title year genres director w a w' :
  add_movie uuid4 now1 now2 title year genres director w = (inr a, w') ->
  stored w' uuid4 = Some (dict_at w' a)
  /\ m_id (dict_at w' a) = uuid4
  /\ m_title (dict_at w' a) = strip title
  /\ strip title <> ""
  /\ m_year (dict_at w' a) = year
  /\ 1878 <= year <= 3000
  /\ genres_of w' (dict_at w' a) = _normalize_genres genres
  /\ m_director (dict_at w' a) = or_None (strip (or_empty director))
  /\ (stored w uuid4 = None ->
      map fst (_movies w') = (map fst (_movies w) ++ [uuid4])%list).
Proof.
  intros Hrun.
  destruct (is_empty (strip title)) eqn:Ht;
    [unfold add_movie in Hrun; by rewrite Ht in Hrun|].
  destruct ((year <? 1878) || (year >? 3000)) eqn:Hy;
    [unfold add_movie in Hrun; by rewrite Ht, Hy in Hrun|].
  rewrite add_movie_ok in Hrun by done. injection Hrun as <- <-.
  unfold stored, genres_of. simpl. rewrite dict_get_set. simpl.
  rewrite dict_at_first, dict_at_second. simpl. rewrite list_at_new.
  apply orb_false_iff in Hy as [Hy1%Z.ltb_ge Hy2]. rewrite Z.gtb_ltb in Hy2.
  apply Z.ltb_ge in Hy2. repeat split; try done; try lia.
  - by apply is_empty_false.
  - intros Hnew. rewrite dict_set_keys. rewrite decide_False; [done|].
    apply dict_get_None.
    by destruct (dict_get uuid4 (_movies w)).
Qed.

Lemma add_movie_stores_witness :
  add_movie "id9" "t1" "t2" "  Heat " 1995 (Some ["Crime"; "crime "]) (Some " ")
            sample_one
  = (inr 3%nat,
     snd (add_movie "id9" "t1" "t2" "  Heat " 1995 (Some ["Crime"; "crime "])
                    (Some " ") sample_one))
  /\ m_title (dict_at (snd (add_movie "id9" "t1" "t2" "  Heat " 1995
                                      (Some ["Crime"; "crime "]) (Some " ")
                                      sample_one)) 3%nat)
     = "Heat".
Proof.
  split; [by vm_compute|].
  exact (proj1 (proj2 (proj2
           (add_movie_stores "id9" "t1" "t2" "  Heat " 1995
              (Some ["Crime"; "crime "]) (Some " ") sample_one 3%nat _
              eq_refl)))).
Defined.

(** X6. Round trip: after a successful [add_movie], [get_movie] with the
    returned id returns a record equal to the returned one in every field,
    with the same genres. *)
Theorem add_then_get uuid4 now1 now2 title year genres director w a w1 :
  add_movie uuid4 now1 now2 title year genres director w = (inr a, w1) ->
  m_id (dict_at w1 a) = uuid4
  /\ exists a2 w2,
       get_movie (m_id (dict_at w1 a)) w1 = (inr a2, w2)
       /\ dict_at w2 a2 = dict_at w1 a
       /\ genres_of w2 (dict_at w2 a2) = genres_of w1 (dict_at w1 a).
Proof.
  intros Hrun.
  destruct (is_empty (strip title)) eqn:Ht;
    [unfold add_movie in Hrun; by rewrite Ht in Hrun|].
  destruct ((year <? 1878) || (year >? 3000)) eqn:Hy;
    [unfold add_movie in Hrun; by rewrite Ht, Hy in Hrun|].
  rewrite add_movie_ok in Hrun by done. injection Hrun as <- <-.
  rewrite dict_at_second.
  set (record := Movie uuid4 _ _ _ _ _ _ _ _ _). split; [done|].
  eexists _, _. split.
  - apply get_movie_found. simpl. apply dict_get_set.
  - rewrite dict_at_new. cbn [dicts lists _movies].
    by rewrite dict_at_first.
Qed.

Lemma add_then_get_witness :
  add_movie "id9" "t1" "t2" "Heat" 1995 None None sample_one
  = (inr 3%nat,
     snd (add_movie "id9" "t1" "t2" "Heat" 1995 None None sample_one))
  /\ m_id (dict_at (snd (add_movie "id9" "t1" "t2" "Heat" 1995 None None
                                   sample_one)) 3%nat) = "id9".
Proof.
  split; [by vm_compute|].
  exact (proj1 (add_then_get "id9" "t1" "t2" "Heat" 1995 None None
                             sample_one 3%nat _ eq_refl)).
Defined.

(** ** Updating *)

Section Updating.

(** The run of [update_movie] on a stored id with arguments that pass the
    checks: the assignments, then the copy. *)
Lemma update_movie_ok now movie_id title year genres director w m :
  dict_get movie_id (_movies w) = Some m ->
  (forall t, title = Some t -> strip t <> "") ->
  (forall y, year = Some y -> 1878 <= y <= 3000) ->
  update_movie now movie_id title year genres director w
  = _movie_public m
      (World
         (alter
            (fun r =>
               set_updated_at now
                 (match director with
                  | Some d => set_director (or_None (strip d))
                  | None => fun r => r
                  end
                    (match genres with
                     | Some _ => set_genres (length (lists w))
                     | None => fun r => r
                     end
                       (match year with
                        | Some y => set_year y
                        | None => fun r => r
                        end
                          (match title with
                           | Some t => set_title (strip t)
                           | None => fun r => r
                           end r)))))
            m (dicts w))
         (lists w ++ match genres with
                     | Some gs => [_normalize_genres (Some gs)]
                     | None => []
                     end)
         (_movies w)).
Proof.
  intros Hm Ht Hy. unfold update_movie, bind at 1.
  rewrite (require_found _ _ m) by done.
  assert (forall t, title = Some t -> is_empty (strip t) = false) as Ht'.
  { intros t H. by apply is_empty_false, Ht. }
  assert (forall y, year = Some y -> (y <? 1878) || (y >? 3000) = false)
    as Hy'.
  { intros y H%Hy. apply orb_false_iff.
    rewrite Z.ltb_ge, Z.gtb_ltb, Z.ltb_ge. lia. }
  destruct title as [t|]; [rewrite (Ht' t eq_refl)|];
    (destruct year as [y|]; [rewrite (Hy' y eq_refl)|]);
    destruct genres as [gs|], director as [d|];
    run_monad; rewrite ?list_alter_alter_eq, ?app_nil_r; reflexivity.
Qed.

End Updating.

(** X7. [update_movie] on a stored id, with a title that is not blank and a
    year in [1878, 3000] where they are provided, returns.  The record then
    stored has the trimmed title, the year, the normalized genres and the
    trimmed director (none when blank) where they were provided, the old
    values where they were not, the clock reading in [updated_at], and the
    old id, checkout fields and [created_at]; what is returned is a copy of
    it. *)
Theorem update_movie_applies now movie_id title year genres director w r :
  reachable w -> stored w movie_id = Some r ->
  (forall t, title = Some t -> strip t <> "") ->
  (forall y, year = Some y -> 1878 <= y <= 3000) ->
  exists a w' r',
    update_movie now movie_id title year genres director w = (inr a, w')
    /\ stored w' movie_id = Some r'
    /\ dict_at w' a = r'
    /\ m_title r' = match title with Some t => strip t | None => m_title r end
    /\ m_year r' = match year with Some y => y | None => m_year r end
    /\ genres_of w' r' = match genres with
                         | Some gs => _normalize_genres (Some gs)
                         | None => genres_of w r
                         end
    /\ m_director r' = match director with
                       | Some d => or_None (strip d)
                       | None => m_director r
                       end
    /\ m_updated_at r' = now
    /\ m_id r' = m_id r
    /\ m_borrowed r' = m_borrowed r
    /\ m_borrowed_by r' = m_borrowed_by r
    /\ m_borrowed_at r' = m_borrowed_at r
    /\ m_created_at r' = m_created_at r.
Proof.
  intros Hw%reachable_wf (m & Hm & ->)%stored_Some Ht Hy.
  pose proof (wf_get_alloc _ _ _ Hw Hm) as Hlt.
  rewrite (update_movie_ok _ _ _ _ _ _ _ m) by done.
  set (U := fun r : movie => set_updated_at now _).
  set (ls := (lists w ++ _)%list).
  rewrite public_run. cbn [dicts lists _movies].
  assert (dict_at (World (alter U m (dicts w)) ls (_movies w)) m
          = U (dict_at w m)) as E.
  { rewrite (dict_at_alter _ _ _ _ (lists w) _ (_movies w)).
    rewrite decide_True by done. by destruct w. }
  eexists _, _, (U (dict_at w m)). split; [reflexivity|].
  unfold stored. cbn [dicts lists _movies]. rewrite Hm. simpl.
  rewrite E. split; [|split].
  - rewrite (dict_at_old _ _ _ ls _ (_movies w)) by by rewrite length_alter.
    by rewrite E.
  - apply dict_at_new.
  - unfold U, ls, genres_of, list_at. cbn [lists].
    destruct title, year, genres, director; simpl;
      rewrite ?app_nil_r, ?lookup_app_r, ?Nat.sub_diag by done;
      by repeat split.
Qed.

Lemma update_movie_applies_witness :
  reachable sample_borrowed
  /\ stored sample_borrowed "id1" = Some (dict_at sample_borrowed 0%nat)
  /\ exists a w',
       update_movie "now" "id1" (Some " Dune: Part One ") None
                    (Some ["sci-fi"; "SCI-FI"; "Epic"]) None sample_borrowed
       = (inr a, w')
       /\ m_title (dict_at w' a) = "Dune: Part One"
       /\ genres_of w' (dict_at w' a) = ["sci-fi"; "Epic"]
       /\ m_borrowed_by (dict_at w' a) = Some "Alice".
Proof.
  assert (reachable sample_borrowed) as Hr
    by (unfold sample_borrowed, sample_one;
        apply reachable_call, reachable_call, reachable_init).
  split; [exact Hr|]. split; [reflexivity|].
  destruct (update_movie_applies "now" "id1" (Some " Dune: Part One ") None
              (Some ["sci-fi"; "SCI-FI"; "Epic"]) None sample_borrowed _
              Hr eq_refl)
    as (a & w' & r' & H1 & _ & H2 & H3 & _ & H4 & _ & _ & _ & _ & H5 & _).
  - by intros t [= <-].
  - done.
  - exists a, w'. rewrite H2. split; [exact H1|].
    rewrite H3, H4, H5. by vm_compute.
Defined.

(** ** Deleting *)

Lemma dict_get_del_ne k k' d :
  k' <> k -> dict_get k' (dict_del k d) = dict_get k' d.
Proof.
  intros Hne. induction d as [|[k0 v0] d IH]; simpl; [done|].
  destruct (String.eqb_spec k k0) as [->|Hk].
  - by destruct (String.eqb_spec k' k0).
  - simpl. by rewrite IH.
Qed.

Lemma delete_movie_ok movie_id w m :
  dict_get movie_id (_movies w) = Some m ->
  delete_movie movie_id w
  = (inr (true, movie_id),
     World (dicts w) (lists w) (dict_del movie_id (_movies w))).
Proof.
  intros Hm. unfold delete_movie, bind at 1.
  by rewrite (require_found _ _ m).
Qed.

(** X8. [delete_movie] on a stored id returns the confirmation with that
    id and removes the record: the id is no longer stored, so that
    [get_movie] and a second [delete_movie] raise the not-found error, and
    every other id holds the record it held. *)
Theorem delete_movie_removes w movie_id r :
  reachable w -> stored w movie_id = Some r ->
  exists w',
    delete_movie movie_id w = (inr (true, movie_id), w')
    /\ stored w' movie_id = None
    /\ (forall other, other <> movie_id ->
          stored w' other = stored w other)
    /\ get_movie movie_id w'
       = (inl (ValueError ("Movie not found: " ++ movie_id)), w')
    /\ delete_movie movie_id w'
       = (inl (ValueError ("Movie not found: " ++ movie_id)), w').
Proof.
  intros Hw%reachable_wf (m & Hm & ->)%stored_Some.
  eexists. split; [by apply (delete_movie_ok _ _ m)|].
  assert (dict_get movie_id (dict_del movie_id (_movies w)) = None) as Hgone
    by apply dict_get_del, Hw.
  repeat split.
  - unfold stored. simpl. by rewrite Hgone.
  - intros other Hne. unfold stored. simpl.
    by rewrite dict_get_del_ne.
  - unfold get_movie, bind. by rewrite require_missing.
  - unfold delete_movie, bind. by rewrite require_missing.
Qed.

Lemma delete_movie_removes_witness :
  reachable sample_three
  /\ stored sample_three "id2" = Some (dict_at sample_three 2%nat)
  /\ exists w',
       delete_movie "id2" sample_three = (inr (true, "id2"), w')
       /\ stored w' "id2" = None
       /\ map fst (_movies w') = ["id3"; "id1"].
Proof.
  assert (reachable sample_three) as Hr
    by (unfold sample_three; do 3 apply reachable_call;
        apply reachable_init).
  split; [exact Hr|]. split; [reflexivity|].
  destruct (delete_movie_removes sample_three "id2" _ Hr eq_refl)
    as (w' & H1 & H2 & _).
  exists w'. split; [exact H1|]. split; [exact H2|].
  vm_compute in H1. by injection H1 as <-.
Defined.

(** ** Lending and taking back *)

Section Checkout.

(** The world after the assignments to the dict at [m] and the copy. *)
Lemma assigned_and_copied w m (U : movie -> movie) ls :
  (m < length (dicts w))%nat ->
  let w' := World (alter U m (dicts w)) ls (_movies w) in
  _movie_public m w'
  = (inr (length (dicts w)),
     World (alter U m (dicts w) ++ [U (dict_at w m)]) ls (_movies w))
  /\ dict_at (snd (_movie_public m w')) m = U (dict_at w m)
  /\ dict_at (snd (_movie_public m w')) (length (dicts w)) = U (dict_at w m).
Proof.
  intros Hlt w'.
  assert (dict_at w' m = U (dict_at w m)) as E.
  { unfold w'. rewrite (dict_at_alter _ _ _ _ (lists w) _ (_movies w)).
    rewrite decide_True by done. by destruct w. }
  assert (_movie_public m w'
          = (inr (length (dicts w)),
             World (alter U m (dicts w) ++ [U (dict_at w m)]) ls (_movies w)))
    as R.
  { rewrite public_run, E. unfold w'. cbn [dicts lists _movies].
    by rewrite length_alter. }
  rewrite R. cbn [snd]. split; [done|]. split.
  - rewrite (dict_at_old _ _ _ ls _ (_movies w)) by by rewrite length_alter.
    exact E.
  - replace (length (dicts w)) with (length (alter U m (dicts w)))
      by apply length_alter.
    apply dict_at_new.
Qed.

Lemma borrow_movie_ok now1 now2 movie_id borrower w m :
  strip borrower <> "" ->
  dict_get movie_id (_movies w) = Some m ->
  m_borrowed (dict_at w m) = false ->
  borrow_movie now1 now2 movie_id borrower w
  = _movie_public m
      (World
         (alter (fun r =>
                   set_updated_at now2
                     (set_borrowed_at (Some now1)
                        (set_borrowed_by (Some (strip borrower))
                           (set_borrowed true r))))
                m (dicts w))
         (lists w) (_movies w)).
Proof.
  intros Hb%is_empty_false Hm Hr. unfold borrow_movie. rewrite Hb.
  unfold bind at 1. rewrite (require_found _ _ m) by done.
  run_monad. rewrite Hr. run_monad.
  rewrite !list_alter_alter_eq. reflexivity.
Qed.

Lemma return_movie_ok now movie_id w m :
  dict_get movie_id (_movies w) = Some m ->
  m_borrowed (dict_at w m) = true ->
  return_movie now movie_id w
  = _movie_public m
      (World
         (alter (fun r =>
                   set_updated_at now
                     (set_borrowed_at None
                        (set_borrowed_by None (set_borrowed false r))))
                m (dicts w))
         (lists w) (_movies w)).
Proof.
  intros Hm Hr. unfold return_movie.
  unfold bind at 1. rewrite (require_found _ _ m) by done.
  run_monad. rewrite Hr. cbn [negb]. run_monad.
  rewrite !list_alter_alter_eq. reflexivity.
Qed.

End Checkout.

(** X9. [borrow_movie] with a borrower that is not blank, on a stored
    record that is not borrowed, returns.  The record is then borrowed, by
    the trimmed borrower, at the first reading of the clock, with the second
    reading in [updated_at]; its other fields and its genres are as
    before; what is returned is a copy of it. *)
Theorem borrow_movie_lends now1 now2 movie_id borrower w r :
  reachable w -> stored w movie_id = Some r ->
  m_borrowed r = false -> strip borrower <> "" ->
  exists a w' r',
    borrow_movie now1 now2 movie_id borrower w = (inr a, w')
    /\ stored w' movie_id = Some r'
    /\ dict_at w' a = r'
    /\ m_borrowed r' = true
    /\ m_borrowed_by r' = Some (strip borrower)
    /\ m_borrowed_at r' = Some now1
    /\ m_updated_at r' = now2
    /\ m_id r' = m_id r
    /\ m_title r' = m_title r
    /\ m_year r' = m_year r
    /\ genres_of w' r' = genres_of w r
    /\ m_director r' = m_director r
    /\ m_created_at r' = m_created_at r.
Proof.
  intros Hw%reachable_wf (m & Hm & ->)%stored_Some Hr Hb.
  pose proof (wf_get_alloc _ _ _ Hw Hm) as Hlt.
  rewrite (borrow_movie_ok _ _ _ _ _ m) by done.
  set (U := fun r : movie => set_updated_at now2 _).
  destruct (assigned_and_copied w m U (lists w) Hlt) as (E1 & E2 & E3).
  rewrite E1 in *. eexists _, _, (U (dict_at w m)).
  split; [reflexivity|]. unfold stored. cbn [_movies snd] in *.
  rewrite Hm. simpl. rewrite E2. split; [done|]. split; [exact E3|].
  by repeat split.
Qed.

Lemma borrow_movie_lends_witness :
  reachable sample_one
  /\ stored sample_one "id1" = Some (dict_at sample_one 0%nat)
  /\ m_borrowed (dict_at sample_one 0%nat) = false
  /\ strip " Bob " <> ""
  /\ exists a w',
       borrow_movie "t1" "t2" "id1" " Bob " sample_one = (inr a, w')
       /\ m_borrowed_by (dict_at w' a) = Some "Bob".
Proof.
  assert (reachable sample_one) as Hr
    by (unfold sample_one; apply reachable_call, reachable_init).
  assert (strip " Bob " <> "") as Hb by (by vm_compute).
  split; [exact Hr|]. do 2 (split; [reflexivity|]). split; [exact Hb|].
  destruct (borrow_movie_lends "t1" "t2" "id1" " Bob " sample_one _
              Hr eq_refl eq_refl Hb)
    as (a & w' & r' & H1 & _ & H2 & _ & H3 & _).
  exists a, w'. split; [exact H1|]. by rewrite H2, H3.
Defined.

(** X10. [return_movie] on a stored record that is borrowed returns.  The
    record is then not borrowed, [borrowed_by] and [borrowed_at] are
    absent, [updated_at] is the reading of the clock; its other fields and
    its genres are as before; what is returned is a copy of it. *)
Theorem return_movie_takes_back now movie_id w r :
  reachable w -> stored w movie_id = Some r -> m_borrowed r = true ->
  exists a w' r',
    return_movie now movie_id w = (inr a, w')
    /\ stored w' movie_id = Some r'
    /\ dict_at w' a = r'
    /\ m_borrowed r' = false
    /\ m_borrowed_by r' = None
    /\ m_borrowed_at r' = None
    /\ m_updated_at r' = now
    /\ m_id r' = m_id r
    /\ m_title r' = m_title r
    /\ m_year r' = m_year r
    /\ genres_of w' r' = genres_of w r
    /\ m_director r' = m_director r
    /\ m_created_at r' = m_created_at r.
Proof.
  intros Hw%reachable_wf (m & Hm & ->)%stored_Some Hr.
  pose proof (wf_get_alloc _ _ _ Hw Hm) as Hlt.
  rewrite (return_movie_ok _ _ _ m) by done.
  set (U := fun r : movie => set_updated_at now _).
  destruct (assigned_and_copied w m U (lists w) Hlt) as (E1 & E2 & E3).
  rewrite E1 in *. eexists _, _, (U (dict_at w m)).
  split; [reflexivity|]. unfold stored. cbn [_movies snd] in *.
  rewrite Hm. simpl. rewrite E2. split; [done|]. split; [exact E3|].
  by repeat split.
Qed.

Lemma return_movie_takes_back_witness :
  reachable sample_borrowed
  /\ stored sample_borrowed "id1" = Some (dict_at sample_borrowed 0%nat)
  /\ m_borrowed (dict_at sample_borrowed 0%nat) = true
  /\ exists a w',
       return_movie "t9" "id1" sample_borrowed = (inr a, w')
       /\ m_borrowed (dict_at w' a) = false.
Proof.
  assert (reachable sample_borrowed) as Hr
    by (unfold sample_borrowed, sample_one;
        apply reachable_call, reachable_call, reachable_init).
  split; [exact Hr|]. do 2 (split; [reflexivity|]).
  destruct (return_movie_takes_back "t9" "id1" sample_borrowed _
              Hr eq_refl eq_refl)
    as (a & w' & r' & H1 & _ & H2 & H3 & _).
  exists a, w'. split; [exact H1|]. by rewrite H2, H3.
Defined.

(** X11. The cycle of a loan.  After a successful [borrow_movie], a second
    [borrow_movie] raises the conflict that names the (trimmed) first
    borrower and changes nothing; [return_movie] then returns and leaves
    the record as it was before the loan, but for [updated_at]; and a
    second [return_movie] raises and changes nothing. *)
Theorem loan_cycle now1 now2 now3 movie_id borrower w r :
  reachable w -> stored w movie_id = Some r ->
  m_borrowed r = false -> strip borrower <> "" ->
  exists a1 w1,
    borrow_movie now1 now2 movie_id borrower w = (inr a1, w1)
    /\ (forall now4 now5 other,
          strip other <> "" ->
          borrow_movie now4 now5 movie_id other w1
          = (inl (ValueError ("Movie is already borrowed by "
                              ++ strip borrower ++ ".")), w1))
    /\ exists a2 w2,
         return_movie now3 movie_id w1 = (inr a2, w2)
         /\ stored w2 movie_id = Some (set_updated_at now3 r)
         /\ genres_of w2 (set_updated_at now3 r) = genres_of w r
         /\ (forall now6,
               return_movie now6 movie_id w2
               = (inl (ValueError "Movie is not borrowed."), w2)).
Proof.
  intros Hw%reachable_wf (m & Hm & ->)%stored_Some Hr Hb.
  pose proof (wf_get_alloc _ _ _ Hw Hm) as Hlt.
  pose proof (checkout_ok_dict_at w m (wf_checkout w Hw)) as [_ Hno].
  apply Hno in Hr as Hnone. destruct Hnone as [Hby Hat].
  rewrite (borrow_movie_ok _ _ _ _ _ m) by done.
  set (U1 := fun r : movie => set_updated_at now2 _).
  destruct (assigned_and_copied w m U1 (lists w) Hlt) as (E1 & E2 & _).
  rewrite E1 in *. cbn [snd] in E2.
  set (w1 := World (alter U1 m (dicts w) ++ [U1 (dict_at w m)])
                   (lists w) (_movies w)) in *.
  assert ((m < length (dicts w1))%nat) as Hlt1.
  { unfold w1. cbn [dicts]. rewrite length_app, length_alter. lia. }
  exists (length (dicts w)), w1. split; [done|]. split.
  - intros now4 now5 other Ho%is_empty_false.
    rewrite (borrow_movie_borrowed _ _ _ _ _ m);
      [by rewrite E2 | done | done | by rewrite E2].
  - rewrite (return_movie_ok _ _ _ m); [|done|by rewrite E2].
    set (U2 := fun r : movie => set_updated_at now3 _).
    destruct (assigned_and_copied w1 m U2 (lists w1) Hlt1)
      as (F1 & F2 & _).
    assert (U2 (dict_at w1 m) = set_updated_at now3 (dict_at w m)) as EU.
    { rewrite E2. unfold U2, U1. destruct (dict_at w m). simpl in *.
      by subst. }
    rewrite F1 in F2. cbn [snd] in F2. rewrite EU in F1, F2. rewrite F1.
    assert (dict_get movie_id (_movies w1) = Some m) as Hm1 by exact Hm.
    eexists _, _. split; [reflexivity|].
    unfold stored. cbn [_movies]. rewrite Hm1.
    cbn [fmap option_fmap option_map]. rewrite F2. repeat split.
    intros now6. apply (return_movie_available _ _ _ m); [done|].
    by rewrite F2.
Qed.

Lemma loan_cycle_witness :
  reachable sample_one
  /\ stored sample_one "id1" = Some (dict_at sample_one 0%nat)
  /\ m_borrowed (dict_at sample_one 0%nat) = false
  /\ strip "Bob" <> ""
  /\ exists a1 w1,
       borrow_movie "t1" "t2" "id1" "Bob" sample_one = (inr a1, w1)
       /\ borrow_movie "t3" "t4" "id1" "Eve" w1
          = (inl (ValueError "Movie is already borrowed by Bob."), w1).
Proof.
  assert (reachable sample_one) as Hr
    by (unfold sample_one; apply reachable_call, reachable_init).
  assert (strip "Bob" <> "") as Hb by (by vm_compute).
  assert (strip "Eve" <> "") as He by (by vm_compute).
  split; [exact Hr|]. do 2 (split; [reflexivity|]). split; [exact Hb|].
  destruct (loan_cycle "t1" "t2" "t5" "id1" "Bob" sample_one _
              Hr eq_refl eq_refl Hb)
    as (a1 & w1 & H1 & H2 & _).
  exists a1, w1. split; [exact H1|]. exact (H2 "t3" "t4" "Eve" He).
Defined.

(** ** Searching without filters *)

(** X12. [search_movies] with no filter, or with filters that are blank,
    is [list_movies]: the same result and the same world. *)
Theorem search_without_filters_is_list query genre director only_available w :
  strip (or_empty query) = "" ->
  strip (or_empty genre) = "" ->
  strip (or_empty director) = "" ->
  search_movies query None genre director only_available w
  = list_movies only_available w.
Proof.
  intros Hq Hg Hd. unfold search_movies, list_movies.
  rewrite Hq, Hg, Hd.
  unfold bind, gets. reflexivity.
Qed.

Lemma search_without_filters_is_list_witness :
  strip (or_empty (Some "  ")) = ""
  /\ strip (or_empty None) = ""
  /\ search_movies (Some "  ") None None None true sample_three
     = list_movies true sample_three.
Proof.
  split; [reflexivity|]. split; [reflexivity|].
  exact (search_without_filters_is_list (Some "  ") None None true
           sample_three eq_refl eq_refl eq_refl).
Defined.

(** ** Rules for [always] *)

Section Always.

Lemma always_bind {A B} P (Q : A -> world -> Prop) (R : B -> world -> Prop) E
    (c : M A) (k : A -> M B) :
  always P c Q E -> (forall x, always (Q x) (k x) R E) ->
  always P (bind c k) R E.
Proof.
  intros Hc Hk w Hw. unfold bind. specialize (Hc w Hw).
  destruct (c w) as [[e|x] w1]; [done|]. by apply Hk.
Qed.

Lemma always_ret {A} (P : world -> Prop) E (x : A) :
  always P (ret x) (fun _ => P) E.
Proof. by intros w Hw. Qed.

Lemma always_raise {A} (P E : world -> Prop) e (Q : A -> world -> Prop) :
  (forall w, P w -> E w) -> always P (raise e) Q E.
Proof. intros H w Hw. by apply H. Qed.

Lemma always_gets {A} (P : world -> Prop) E (f : world -> A) :
  always P (gets f) (fun _ => P) E.
Proof. by intros w Hw. Qed.

Lemma always_weaken {A} (P P' : world -> Prop) (Q Q' : A -> world -> Prop)
    (E E' : world -> Prop) (c : M A) :
  (forall w, P w -> P' w) -> (forall x w, Q' x w -> Q x w) ->
  (forall w, E' w -> E w) ->
  always P' c Q' E' -> always P c Q E.
Proof.
  intros HP HQ HE Hc w Hw. specialize (Hc w (HP w Hw)).
  destruct (c w) as [[e|x] w1]; auto.
Qed.

End Always.

(** ** Valid fields and normal genres *)

Section Sound.

Lemma valid_text_strip s : strip s <> "" -> valid_text (strip s).
Proof. intros H. split; [apply strip_idemp|done]. Qed.

Lemma valid_or_None s d : or_None (strip s) = Some d -> valid_text d.
Proof.
  unfold or_None. destruct (is_empty (strip s)) eqn:E; [done|].
  intros [= <-]. by apply valid_text_strip, is_empty_false.
Qed.

Lemma _normalize_genres_normal genres :
  normal_genres (_normalize_genres genres).
Proof.
  destruct genres as [[|g rest]|]; try (split; constructor).
  destruct (normalize_loop_normal (g :: rest) ∅) as (H1 & H2 & _).
  by split.
Qed.

Lemma normal_genres_fixed l :
  normal_genres l -> _normalize_genres (Some l) = l.
Proof.
  intros [H1 H2]. destruct l as [|x l]; [done|].
  unfold _normalize_genres.
  rewrite (normalize_loop_fixed (x :: l) ∅ []); [done|done|done|].
  apply Forall_forall. intros y _. apply not_elem_of_empty.
Qed.

Lemma valid_set_title t x :
  valid_text t -> valid_record x -> valid_record (set_title t x).
Proof. by intros Ht (H1 & H2 & H3 & H4). Qed.

Lemma valid_set_year y x :
  1878 <= y <= 3000 -> valid_record x -> valid_record (set_year y x).
Proof. by intros Hy (H1 & H2 & H3 & H4). Qed.

Lemma valid_set_director d x :
  (forall d', d = Some d' -> valid_text d') ->
  valid_record x -> valid_record (set_director d x).
Proof. by intros Hd (H1 & H2 & H3 & H4). Qed.

Lemma valid_set_updated_at now x :
  valid_record x -> valid_record (set_updated_at now x).
Proof. by intros (H1 & H2 & H3 & H4). Qed.

Lemma valid_lent now1 now2 b x :
  valid_text b -> valid_record x ->
  valid_record (set_updated_at now2
                  (set_borrowed_at (Some now1)
                     (set_borrowed_by (Some b) (set_borrowed true x)))).
Proof.
  intros Hb (H1 & H2 & H3 & H4). split; [|split; [|split]]; try done.
  simpl. by intros b' [= <-].
Qed.

Lemma valid_taken_back now x :
  valid_record x ->
  valid_record (set_updated_at now
                  (set_borrowed_at None
                     (set_borrowed_by None (set_borrowed false x)))).
Proof. intros (H1 & H2 & H3 & H4). by split; [|split; [|split]]. Qed.

Lemma sound_dict_at w a :
  sound w -> (a < length (dicts w))%nat ->
  valid_record (dict_at w a) /\ (m_genres (dict_at w a) < length (lists w))%nat.
Proof.
  intros [H1 _ H3] Ha. apply lookup_lt_is_Some_2 in Ha as [x Hx].
  unfold dict_at. rewrite (list_lookup_total_correct _ _ _ Hx).
  split.
  - by apply (Forall_lookup_1 _ _ _ _ H1 Hx).
  - by apply (Forall_lookup_1 _ _ _ _ H3 Hx).
Qed.

Lemma sound_setitem m f :
  (forall x, valid_record x -> valid_record (f x)) ->
  (forall x, m_genres (f x) = m_genres x) ->
  always (sound_at m) (setitem m f) (fun _ => sound_at m) sound.
Proof.
  intros Hv Hg w [[H1 H2 H3] Hm]. split; [split|]; simpl.
  - apply Forall_alter; [done|]. intros x _. apply Hv.
  - done.
  - apply Forall_alter; [done|]. intros x _. by rewrite Hg.
  - by rewrite length_alter.
Qed.

Lemma sound_set_genres m l :
  normal_genres l ->
  always (sound_at m) (gl <- new_list l ;; setitem m (set_genres gl))
         (fun _ => sound_at m) sound.
Proof.
  intros Hl w [[H1 H2 H3] Hm]. run_monad. split; [split|]; simpl.
  - apply Forall_alter; [done|]. by intros x _.
  - apply Forall_app. split; [done|]. by constructor.
  - rewrite length_app. simpl. apply Forall_alter.
    + eapply Forall_impl; [exact H3|]. intros x Hx. simpl in Hx. lia.
    + intros x _ _. simpl. lia.
  - by rewrite length_alter.
Qed.

Lemma sound_public m :
  always (sound_at m) (_movie_public m) (fun _ => sound) sound.
Proof.
  intros w [Hs Hm]. rewrite public_run.
  destruct (sound_dict_at w m Hs Hm) as [Hv Hg].
  destruct Hs as [H1 H2 H3]. split; simpl.
  - apply Forall_app. split; [done|]. by constructor.
  - done.
  - apply Forall_app. split; [done|]. by constructor.
Qed.

Lemma sound_require movie_id :
  always (fun w => sound w /\ alloc_ok w) (_require_movie movie_id)
         sound_at sound.
Proof.
  intros w [Hs Ha].
  destruct (dict_get movie_id (_movies w)) as [m|] eqn:Hm.
  - rewrite (require_found _ _ m) by done. split; [done|].
    apply (proj1 (Forall_forall _ _) Ha).
    apply dict_get_elem in Hm.
    by apply (list_elem_of_fmap_2 snd _ (movie_id, m)).
  - by rewrite require_missing.
Qed.

Lemma sound_at_sound m : forall w, sound_at m w -> sound w.
Proof. by intros w [? _]. Qed.

Lemma sound_update now movie_id title year genres director :
  always (fun w => sound w /\ alloc_ok w)
         (update_movie now movie_id title year genres director)
         (fun _ => sound) sound.
Proof.
  unfold update_movie.
  eapply always_bind; [apply sound_require|]. intros m.
  apply (always_bind _ (fun _ => sound_at m)).
  { destruct title as [t|]; [|apply always_ret].
    destruct (is_empty (strip t)) eqn:Ht.
    - apply always_raise, sound_at_sound.
    - apply sound_setitem; [|done]. intros rec.
      by apply valid_set_title, valid_text_strip, is_empty_false. }
  intros ?. apply (always_bind _ (fun _ => sound_at m)).
  { destruct year as [y|]; [|apply always_ret].
    destruct ((y <? 1878) || (y >? 3000)) eqn:Hy.
    - apply always_raise, sound_at_sound.
    - apply sound_setitem; [|done]. intros rec. apply valid_set_year.
      apply orb_false_iff in Hy as [Hy1%Z.ltb_ge Hy2].
      rewrite Z.gtb_ltb in Hy2. apply Z.ltb_ge in Hy2. lia. }
  intros ?. apply (always_bind _ (fun _ => sound_at m)).
  { destruct genres as [gs|]; [|apply always_ret].
    apply sound_set_genres, _normalize_genres_normal. }
  intros ?. apply (always_bind _ (fun _ => sound_at m)).
  { destruct director as [d|]; [|apply always_ret].
    apply sound_setitem; [|done]. intros rec. apply valid_set_director.
    intros d'. apply valid_or_None. }
  intros ?. eapply always_bind.
  { apply sound_setitem; [|done]. intros rec. apply valid_set_updated_at. }
  intros ?. apply sound_public.
Qed.

Lemma sound_assigned w m (U : movie -> movie) :
  sound w -> (m < length (dicts w))%nat ->
  (forall x, valid_record x -> valid_record (U x)) ->
  (forall x, m_genres (U x) = m_genres x) ->
  sound (snd (_movie_public m
                (World (alter U m (dicts w)) (lists w) (_movies w)))).
Proof.
  intros Hs Hm Hv Hg.
  pose proof (sound_setitem m U Hv Hg w (conj Hs Hm)) as H1.
  apply (sound_public m _ H1).
Qed.

Lemma sound_extend w items :
  sound w -> Forall (fun a => (a < length (dicts w))%nat) items ->
  sound (World (dicts w ++ map (dict_at w) items) (lists w) (_movies w)).
Proof.
  intros Hs Hall.
  assert (Forall (fun x => valid_record x
                           /\ (m_genres x < length (lists w))%nat)
                 (map (dict_at w) items)) as Hc.
  { apply Forall_fmap. eapply Forall_impl; [exact Hall|].
    intros a Ha. by apply sound_dict_at. }
  destruct Hs as [H1 H2 H3]. split; simpl.
  - apply Forall_app. split; [done|].
    eapply Forall_impl; [exact Hc|]. by intros x [? _].
  - done.
  - apply Forall_app. split; [done|].
    eapply Forall_impl; [exact Hc|]. by intros x [_ ?].
Qed.

Lemma sound_run c w : wf w -> sound w -> sound (snd (run c w)).
Proof.
  intros Hw Hs. assert (alloc_ok w) as Ha by apply Hw.
  destruct c; simpl; unfold bind at 1.
  - (* add *)
    destruct (is_empty (strip title)) eqn:Ht;
      [unfold add_movie; by rewrite Ht|].
    destruct ((year <? 1878) || (year >? 3000)) eqn:Hy;
      [unfold add_movie; by rewrite Ht, Hy|].
    rewrite add_movie_ok by done. simpl.
    apply orb_false_iff in Hy as [Hy1%Z.ltb_ge Hy2].
    rewrite Z.gtb_ltb in Hy2. apply Z.ltb_ge in Hy2.
    destruct Hs as [H1 H2 H3].
    assert (valid_record
              (Movie uuid4 (strip title) year (length (lists w))
                     (or_None (strip (or_empty director))) false None None
                     now1 now2)) as Hrec.
    { split; [|split; [|split]]; simpl; [|lia| |done].
      - by apply valid_text_strip, is_empty_false.
      - intros d. apply valid_or_None. }
    split; simpl.
    + apply Forall_app. split; [done|].
      constructor; [done|]. constructor; [done|constructor].
    + apply Forall_app. split; [done|].
      constructor; [apply _normalize_genres_normal|constructor].
    + rewrite length_app. simpl. apply Forall_app. split.
      * eapply Forall_impl; [exact H3|]. intros x Hx. simpl in Hx. lia.
      * repeat constructor; simpl; lia.
  - (* get *)
    destruct (dict_get movie_id (_movies w)) as [m|] eqn:Hm.
    + rewrite (get_movie_found _ _ m) by done. simpl.
      apply (sound_extend w [m]); [done|]. constructor; [|constructor].
      by apply (wf_get_alloc w movie_id).
    + unfold get_movie, bind. by rewrite require_missing.
  - (* list *)
    rewrite list_movies_run by done. simpl. apply sound_extend; [done|].
    apply py_sort_alloc. by apply filter_Forall.
  - (* search *)
    rewrite search_movies_run by done. simpl. apply sound_extend; [done|].
    apply py_sort_alloc. by apply filter_Forall.
  - (* update *)
    pose proof (sound_update now movie_id title year genres director w
                  (conj Hs Ha)) as H.
    by destruct (update_movie now movie_id title year genres director w)
      as [[e|x] w1].
  - (* delete *)
    destruct (dict_get movie_id (_movies w)) as [m|] eqn:Hm.
    + rewrite (delete_movie_ok _ _ m) by done. simpl. by destruct Hs.
    + unfold delete_movie, bind. by rewrite require_missing.
  - (* borrow *)
    destruct (is_empty (strip borrower)) eqn:Hb;
      [by rewrite borrow_movie_blank|].
    destruct (dict_get movie_id (_movies w)) as [m|] eqn:Hm.
    2:{ unfold borrow_movie. rewrite Hb. unfold bind.
        by rewrite require_missing. }
    destruct (m_borrowed (dict_at w m)) eqn:Hr.
    + by rewrite (borrow_movie_borrowed _ _ _ _ _ m).
    + apply is_empty_false in Hb.
      rewrite (borrow_movie_ok _ _ _ _ _ m) by done.
      destruct (_movie_public m _) as [[e|x] w1] eqn:E; [done|].
      change w1 with (snd (inr (A:=exn) x, w1)). rewrite <- E.
      apply sound_assigned; [done|by apply (wf_get_alloc w movie_id)| |done].
      intros x0. by apply valid_lent, valid_text_strip.
  - (* return *)
    destruct (dict_get movie_id (_movies w)) as [m|] eqn:Hm.
    2:{ unfold return_movie, bind. by rewrite require_missing. }
    destruct (m_borrowed (dict_at w m)) eqn:Hr.
    + rewrite (return_movie_ok _ _ _ m) by done.
      destruct (_movie_public m _) as [[e|x] w1] eqn:E; [done|].
      change w1 with (snd (inr (A:=exn) x, w1)). rewrite <- E.
      apply sound_assigned; [done|by apply (wf_get_alloc w movie_id)| |done].
      intros x0. apply valid_taken_back.
    + by rewrite (return_movie_available _ _ _ m).
Qed.

Lemma reachable_sound w : reachable w -> sound w.
Proof.
  induction 1 as [|w c Hw IH].
  - split; constructor.
  - apply sound_run; [by apply reachable_wf|done].
Qed.

End Sound.

(** X13. In every reachable world a stored record is filed under its own
    id, its title is trimmed and not empty, its year lies in [1878, 3000],
    and its director and its borrower, when present, are trimmed and not
    empty. *)
Theorem stored_records_valid w movie_id r :
  reachable w -> stored w movie_id = Some r ->
  m_id r = movie_id
  /\ strip (m_title r) = m_title r
  /\ m_title r <> ""
  /\ 1878 <= m_year r <= 3000
  /\ (forall d, m_director r = Some d -> strip d = d /\ d <> "")
  /\ (forall b, m_borrowed_by r = Some b -> strip b = b /\ b <> "").
Proof.
  intros Hr (m & Hm & ->)%stored_Some.
  pose proof (reachable_wf w Hr) as Hw.
  pose proof (reachable_sound w Hr) as Hs.
  destruct (sound_dict_at w m Hs (wf_get_alloc _ _ _ Hw Hm))
    as [([H1 H2] & H3 & H4 & H5) _].
  split; [|done].
  apply dict_get_elem in Hm.
  by apply (proj1 (Forall_forall _ _) (wf_ids w Hw) (movie_id, m)).
Qed.

Lemma stored_records_valid_witness :
  reachable sample_borrowed
  /\ stored sample_borrowed "id1" = Some (dict_at sample_borrowed 0%nat)
  /\ 1878 <= m_year (dict_at sample_borrowed 0%nat) <= 3000.
Proof.
  assert (reachable sample_borrowed) as Hr
    by (unfold sample_borrowed, sample_one;
        apply reachable_call, reachable_call, reachable_init).
  split; [exact Hr|]. split; [reflexivity|].
  exact (proj1 (proj2 (proj2 (proj2
           (stored_records_valid sample_borrowed "id1" _ Hr eq_refl))))).
Defined.

(** X14. In every reachable world the genres of a stored record are
    normal: each entry is trimmed and not empty, no two entries are equal
    in lower case, and normalizing them again changes nothing. *)
Theorem stored_genres_normal w movie_id r :
  reachable w -> stored w movie_id = Some r ->
  Forall (fun g => strip g = g /\ g <> "") (genres_of w r)
  /\ NoDup (map lower (genres_of w r))
  /\ _normalize_genres (Some (genres_of w r)) = genres_of w r.
Proof.
  intros Hr (m & Hm & ->)%stored_Some.
  pose proof (reachable_wf w Hr) as Hw.
  pose proof (reachable_sound w Hr) as Hs.
  assert (normal_genres (genres_of w (dict_at w m))) as Hn.
  { unfold genres_of, list_at.
    destruct (lists w !! m_genres (dict_at w m)) as [l|] eqn:E; simpl.
    - by apply (Forall_lookup_1 _ _ _ _ (sound_genres w Hs) E).
    - split; constructor. }
  split; [apply Hn|]. split; [apply Hn|]. by apply normal_genres_fixed.
Qed.

Lemma stored_genres_normal_witness :
  reachable sample_one
  /\ stored sample_one "id1" = Some (dict_at sample_one 0%nat)
  /\ NoDup (map lower (genres_of sample_one (dict_at sample_one 0%nat))).
Proof.
  assert (reachable sample_one) as Hr
    by (unfold sample_one; apply reachable_call, reachable_init).
  split; [exact Hr|]. split; [reflexivity|].
  exact (proj1 (proj2 (stored_genres_normal sample_one "id1" _ Hr eq_refl))).
Defined.

(** X15. In every reachable world no two records of the collection have
    the same id: the ids of the records are the keys of [_movies], each
    once. *)
Theorem ids_are_unique w :
  reachable w ->
  map m_id (records w) = map fst (_movies w)
  /\ NoDup (map m_id (records w)).
Proof.
  intros Hw%reachable_wf.
  assert (map m_id (records w) = map fst (_movies w)) as E.
  { unfold records, dict_values. rewrite !map_map. apply map_ext_in.
    intros e He%list_elem_of_In.
    by apply (proj1 (Forall_forall _ _) (wf_ids w Hw) e). }
  split; [done|]. rewrite E. apply Hw.
Qed.

Lemma ids_are_unique_witness :
  reachable sample_three
  /\ map m_id (records sample_three) = ["id3"; "id2"; "id1"].
Proof.
  assert (reachable sample_three) as Hr
    by (unfold sample_three; do 3 apply reachable_call;
        apply reachable_init).
  split; [exact Hr|].
  by rewrite (proj1 (ids_are_unique sample_three Hr)).
Defined.

(** ** What a call leaves alone *)

Section Evolution.

Lemma dict_get_set_ne k k' v d :
  k' <> k -> dict_get k' (dict_set k v d) = dict_get k' d.
Proof.
  intros Hne. induction d as [|[k0 v0] d IH]; simpl.
  - by destruct (String.eqb_spec k' k).
  - destruct (String.eqb_spec k k0) as [->|Hk]; simpl.
    + by destruct (String.eqb_spec k' k0).
    + by rewrite IH.
Qed.

Lemma evolves_refl ch w : evolves ch w w.
Proof. split; [|done]. intros a x Hx. exists x. by repeat split. Qed.

Lemma evolves_trans ch w0 w1 w2 :
  evolves ch w0 w1 -> evolves ch w1 w2 -> evolves ch w0 w2.
Proof.
  intros [H1 H2] [H3 H4]. split.
  - intros a x Hx. destruct (H1 a x Hx) as (x1 & Hx1 & [I1 I2] & U1).
    destruct (H3 a x1 Hx1) as (x2 & Hx2 & [I3 I4] & U2).
    exists x2. split; [done|]. split; [split; congruence|].
    intros Hch. by rewrite (U2 Hch), (U1 Hch).
  - intros l x Hx. by apply H4, H2.
Qed.

(** Allocation leaves what is allocated as it is. *)
Lemma evolves_extend ch w ex lx mv :
  evolves ch w (World (dicts w ++ ex) (lists w ++ lx) mv).
Proof.
  split; simpl.
  - intros a x Hx. exists x. split; [by apply lookup_app_l_Some|].
    by repeat split.
  - intros l x Hx. by apply lookup_app_l_Some.
Qed.

Lemma evolves_more_dicts ch w ex mv :
  evolves ch w (World (dicts w ++ ex) (lists w) mv).
Proof.
  rewrite <- (app_nil_r (lists w)) at 1. apply evolves_extend.
Qed.

Lemma evolves_more_lists ch w lx mv :
  evolves ch w (World (dicts w) (lists w ++ lx) mv).
Proof.
  rewrite <- (app_nil_r (dicts w)) at 1. apply evolves_extend.
Qed.

Lemma evolves_movies ch w mv : evolves ch w (World (dicts w) (lists w) mv).
Proof.
  rewrite <- (app_nil_r (dicts w)) at 1. apply evolves_more_dicts.
Qed.

Lemma evolves_alter (ch : addr -> Prop) w m (U : movie -> movie) :
  ch m -> (forall x, same_identity x (U x)) ->
  evolves ch w (World (alter U m (dicts w)) (lists w) (_movies w)).
Proof.
  intros Hm HU. split; simpl; [|done].
  intros a x Hx. destruct (decide (m = a)) as [E|Hne].
  - subst a. exists (U x). rewrite list_lookup_alter_eq, Hx.
    split; [done|]. split; [apply HU|]. intros Hn. by destruct Hn.
  - exists x. rewrite list_lookup_alter_ne by done. by repeat split.
Qed.

Lemma evolved_refl ch w : evolved ch w w.
Proof. split; [apply evolves_refl|done]. Qed.

Lemma evolved_step ch w0 w1 w2 :
  evolved ch w0 w1 -> evolves ch w1 w2 -> _movies w2 = _movies w1 ->
  evolved ch w0 w2.
Proof.
  intros [H1 H2] H3 H4. split; [by apply (evolves_trans _ _ w1)|congruence].
Qed.

Lemma evolved_at_evolved ch w0 m :
  forall w, evolved_at ch w0 m w -> evolved ch w0 w.
Proof. by intros w [? _]. Qed.

Lemma evolved_setitem (ch : addr -> Prop) w0 m f E :
  (forall x, same_identity x (f x)) ->
  always (evolved_at ch w0 m) (setitem m f) (fun _ => evolved_at ch w0 m) E.
Proof.
  intros Hf w [Hw Hm]. split; [|done].
  apply (evolved_step _ _ w); [done| |done]. by apply evolves_alter.
Qed.

Lemma evolved_new_list ch w0 m l E :
  always (evolved_at ch w0 m) (new_list l) (fun _ => evolved_at ch w0 m) E.
Proof.
  intros w [Hw Hm]. split; [|done].
  apply (evolved_step _ _ w); [done| |done].
  apply evolves_more_lists.
Qed.

Lemma evolved_public ch w0 m E :
  always (evolved_at ch w0 m) (_movie_public m) (fun _ => evolved ch w0) E.
Proof.
  intros w [Hw Hm]. rewrite public_run.
  apply (evolved_step _ _ w); [done| |done]. apply evolves_more_dicts.
Qed.

Lemma evolved_update now movie_id title year genres director w0 :
  let ch a := dict_get movie_id (_movies w0) = Some a in
  always (eq w0) (update_movie now movie_id title year genres director)
         (fun _ => evolved ch w0) (evolved ch w0).
Proof.
  intros ch. unfold update_movie.
  apply (always_bind _ (evolved_at ch w0)).
  { intros w <-. destruct (dict_get movie_id (_movies w0)) as [m|] eqn:Hm.
    - rewrite (require_found _ _ m) by done. split; [apply evolved_refl|done].
    - rewrite require_missing by done. apply evolved_refl. }
  intros m.
  apply (always_bind _ (fun _ => evolved_at ch w0 m)).
  { destruct title as [t|]; [|apply always_ret].
    destruct (is_empty (strip t)).
    - apply always_raise, evolved_at_evolved.
    - by apply evolved_setitem. }
  intros ?. apply (always_bind _ (fun _ => evolved_at ch w0 m)).
  { destruct year as [y|]; [|apply always_ret].
    destruct ((y <? 1878) || (y >? 3000)).
    - apply always_raise, evolved_at_evolved.
    - by apply evolved_setitem. }
  intros ?. apply (always_bind _ (fun _ => evolved_at ch w0 m)).
  { destruct genres as [gs|]; [|apply always_ret].
    apply (always_bind _ (fun _ => evolved_at ch w0 m));
      [apply evolved_new_list|]. intros gl.
    by apply evolved_setitem. }
  intros ?. apply (always_bind _ (fun _ => evolved_at ch w0 m)).
  { destruct director as [d|]; [|apply always_ret].
    by apply evolved_setitem. }
  intros ?. apply (always_bind _ (fun _ => evolved_at ch w0 m));
    [by apply evolved_setitem|].
  intros ?. apply evolved_public.
Qed.

Lemma evolved_assigned (ch : addr -> Prop) w m (U : movie -> movie) :
  ch m -> (forall x, same_identity x (U x)) ->
  evolved ch w
    (snd (_movie_public m
            (World (alter U m (dicts w)) (lists w) (_movies w)))).
Proof.
  intros Hm HU.
  assert (evolved_at ch w m w) as H0 by (split; [apply evolved_refl|done]).
  pose proof (evolved_setitem ch w m U (fun _ => True) HU w H0) as H1.
  apply (evolved_public ch w m (fun _ => True) _ H1).
Qed.

(** The effect of a call on what the world held before it: the heap has
    evolved, with the dict of the call's id the only one that may have
    changed, and every id that the call does not add or delete is bound as
    before. *)
Lemma run_evolves c w :
  alloc_ok w ->
  evolves (changed c w) w (snd (run c w))
  /\ (forall k, ~ replaces c k ->
        dict_get k (_movies (snd (run c w))) = dict_get k (_movies w)).
Proof.
  intros Ha. remember (snd (run c w)) as w' eqn:E. revert E.
  destruct c; simpl; unfold bind at 1.
  - (* add *)
    destruct (is_empty (strip title)) eqn:Ht.
    { unfold add_movie. rewrite Ht. intros ->.
      split; [apply evolves_refl|done]. }
    destruct ((year <? 1878) || (year >? 3000)) eqn:Hy.
    { unfold add_movie. rewrite Ht, Hy. intros ->.
      split; [apply evolves_refl|done]. }
    rewrite add_movie_ok by done. intros ->. simpl.
    split; [apply evolves_extend|].
    intros k Hk. apply dict_get_set_ne. by intros ->.
  - (* get *)
    destruct (dict_get movie_id (_movies w)) as [m|] eqn:Hm.
    + rewrite (get_movie_found _ _ m) by done. intros ->. simpl.
      split; [apply evolves_more_dicts|done].
    + unfold get_movie, bind. rewrite require_missing by done. intros ->.
      split; [apply evolves_refl|done].
  - (* list *)
    rewrite list_movies_run by done. intros ->. simpl.
    split; [apply evolves_more_dicts|done].
  - (* search *)
    rewrite search_movies_run by done. intros ->. simpl.
    split; [apply evolves_more_dicts|done].
  - (* update *)
    pose proof (evolved_update now movie_id title year genres director w
                  w eq_refl) as H.
    destruct (update_movie now movie_id title year genres director w)
      as [[e|x] w1]; simpl; intros ->; destruct H as [H1 H2];
      (split; [done|]); intros k _; by rewrite H2.
  - (* delete *)
    destruct (dict_get movie_id (_movies w)) as [m|] eqn:Hm.
    + rewrite (delete_movie_ok _ _ m) by done. intros ->. simpl.
      split; [apply evolves_movies|].
      intros k Hk. apply dict_get_del_ne. by intros ->.
    + unfold delete_movie, bind. rewrite require_missing by done.
      intros ->. split; [apply evolves_refl|done].
  - (* borrow *)
    destruct (is_empty (strip borrower)) eqn:Hb.
    { rewrite borrow_movie_blank by done. intros ->.
      split; [apply evolves_refl|done]. }
    destruct (dict_get movie_id (_movies w)) as [m|] eqn:Hm.
    2:{ unfold borrow_movie. rewrite Hb. unfold bind.
        rewrite require_missing by done. intros ->.
        split; [apply evolves_refl|done]. }
    destruct (m_borrowed (dict_at w m)) eqn:Hr.
    + rewrite (borrow_movie_borrowed _ _ _ _ _ m) by done. intros ->.
      split; [apply evolves_refl|done].
    + apply is_empty_false in Hb.
      rewrite (borrow_movie_ok _ _ _ _ _ m) by done.
      destruct (_movie_public m _) as [[e|x] w1] eqn:E; [done|].
      simpl. intros ->.
      change w1 with (snd (inr (A:=exn) x, w1)). rewrite <- E.
      destruct (evolved_assigned
                  (fun a => dict_get movie_id (_movies w) = Some a) w m
                  (fun r =>
                     set_updated_at now2
                       (set_borrowed_at (Some now1)
                          (set_borrowed_by (Some (strip borrower))
                             (set_borrowed true r)))))
        as [H1 H2]; [done|by intros []|].
      split; [done|]. intros k _. by rewrite H2.
  - (* return *)
    destruct (dict_get movie_id (_movies w)) as [m|] eqn:Hm.
    2:{ unfold return_movie, bind. rewrite require_missing by done.
        intros ->. split; [apply evolves_refl|done]. }
    destruct (m_borrowed (dict_at w m)) eqn:Hr.
    + rewrite (return_movie_ok _ _ _ m) by done.
      destruct (_movie_public m _) as [[e|x] w1] eqn:E; [done|].
      simpl. intros ->.
      change w1 with (snd (inr (A:=exn) x, w1)). rewrite <- E.
      destruct (evolved_assigned
                  (fun a => dict_get movie_id (_movies w) = Some a) w m
                  (fun r =>
                     set_updated_at now
                       (set_borrowed_at None
                          (set_borrowed_by None (set_borrowed false r)))))
        as [H1 H2]; [done|by intros []|].
      split; [done|]. intros k _. by rewrite H2.
    + rewrite (return_movie_available _ _ _ m) by done. intros ->.
      split; [apply evolves_refl|done].
Qed.

Lemma dict_at_lookup w a :
  (a < length (dicts w))%nat -> dicts w !! a = Some (dict_at w a).
Proof.
  intros H. unfold dict_at. by apply list_lookup_lookup_total_lt.
Qed.

Lemma dict_at_Some w a x : dicts w !! a = Some x -> dict_at w a = x.
Proof. intros H. unfold dict_at. by apply list_lookup_total_correct. Qed.

End Evolution.

(** X16. Whatever a call does, and whether it returns or raises, it leaves
    the records under the other ids alone: an id that is not the one the
    call is about holds after the call what it held before, and the genres
    of its record are as before. *)
Theorem other_records_untouched c w other :
  reachable w -> target c <> Some other ->
  stored (snd (run c w)) other = stored w other
  /\ (forall r, stored w other = Some r ->
        genres_of (snd (run c w)) r = genres_of w r).
Proof.
  intros Hr Ht. pose proof (reachable_wf w Hr) as Hw.
  pose proof (reachable_sound w Hr) as Hs.
  destruct (run_evolves c w) as [[Hd Hl] Hk]; [apply Hw|].
  assert (dict_get other (_movies (snd (run c w)))
          = dict_get other (_movies w)) as Hget.
  { apply Hk. intros Hc. apply Ht. by destruct c; simpl in *; subst. }
  assert (forall a, dict_get other (_movies w) = Some a ->
            dict_at (snd (run c w)) a = dict_at w a) as Hat.
  { intros a Hm. pose proof (wf_get_alloc w other a Hw Hm) as Hlt.
    destruct (Hd a _ (dict_at_lookup w a Hlt)) as (x' & Hx' & _ & Hsame).
    rewrite (dict_at_Some _ _ _ Hx'). apply Hsame.
    intros Hch. apply Ht.
    assert (forall i, dict_get i (_movies w) = Some a -> i = other) as Hi.
    { intros i Hg.
      pose proof (proj1 (Forall_forall _ _) (wf_ids w Hw) _
                    (dict_get_elem _ _ _ Hg)) as E1.
      pose proof (proj1 (Forall_forall _ _) (wf_ids w Hw) _
                    (dict_get_elem _ _ _ Hm)) as E2.
      simpl in E1, E2. congruence. }
    destruct c; simpl in *; try done; f_equal; by apply Hi. }
  split.
  - unfold stored. rewrite Hget.
    destruct (dict_get other (_movies w)) as [a|] eqn:Hm; [|done].
    simpl. f_equal. by apply Hat.
  - intros r (a & Hm & ->)%stored_Some. unfold genres_of, list_at.
    pose proof (wf_get_alloc w other a Hw Hm) as Hlt.
    destruct (sound_dict_at w a Hs Hlt) as [_ Hg].
    destruct (lookup_lt_is_Some_2 (lists w) _ Hg) as [l Hl'].
    by rewrite Hl', (Hl _ _ Hl').
Qed.

Lemma other_records_untouched_witness :
  reachable sample_three
  /\ target (Update "t9" "id1" (Some "Arrakis") (Some 1000) None None)
     <> Some "id2"
  /\ stored (snd (run (Update "t9" "id1" (Some "Arrakis") (Some 1000)
                              None None) sample_three)) "id2"
     = stored sample_three "id2".
Proof.
  assert (reachable sample_three) as Hr
    by (unfold sample_three; do 3 apply reachable_call;
        apply reachable_init).
  assert (target (Update "t9" "id1" (Some "Arrakis") (Some 1000) None None)
          <> Some "id2") as Ht by (simpl; congruence).
  split; [exact Hr|]. split; [exact Ht|].
  exact (proj1 (other_records_untouched _ sample_three "id2" Hr Ht)).
Defined.

(** X17. The id and the creation time of a stored record never change: after
    any call that does not delete the id or add a record under it, the id
    holds a record with the same [id] and [created_at], whether the call
    returned or raised. *)
Theorem identity_is_kept c w movie_id r :
  reachable w -> stored w movie_id = Some r -> ~ replaces c movie_id ->
  exists r',
    stored (snd (run c w)) movie_id = Some r'
    /\ m_id r' = movie_id /\ m_id r = movie_id
    /\ m_created_at r' = m_created_at r.
Proof.
  intros Hr (a & Hm & ->)%stored_Some Hc.
  pose proof (reachable_wf w Hr) as Hw.
  destruct (run_evolves c w) as [[Hd Hl] Hk]; [apply Hw|].
  pose proof (wf_get_alloc w movie_id a Hw Hm) as Hlt.
  destruct (Hd a _ (dict_at_lookup w a Hlt)) as (x' & Hx' & [I1 I2] & _).
  pose proof (proj1 (Forall_forall _ _) (wf_ids w Hw) _
                (dict_get_elem _ _ _ Hm)) as E1. simpl in E1.
  exists x'. unfold stored. rewrite (Hk _ Hc), Hm. simpl.
  rewrite (dict_at_Some _ _ _ Hx'). repeat split; congruence.
Qed.

Lemma identity_is_kept_witness :
  reachable sample_one
  /\ stored sample_one "id1" = Some (dict_at sample_one 0%nat)
  /\ ~ replaces (Borrow "t8" "t9" "id1" "Ann") "id1"
  /\ exists r',
       stored (snd (run (Borrow "t8" "t9" "id1" "Ann") sample_one)) "id1"
       = Some r'
       /\ m_id r' = "id1"
       /\ m_created_at r' = "2024-05-01T10:00:00.000001+00:00".
Proof.
  assert (reachable sample_one) as Hr
    by (unfold sample_one; apply reachable_call, reachable_init).
  assert (~ replaces (Borrow "t8" "t9" "id1" "Ann") "id1") as Hn
    by (simpl; tauto).
  split; [exact Hr|]. split; [reflexivity|]. split; [exact Hn|].
  destruct (identity_is_kept _ sample_one "id1" _ Hr eq_refl Hn)
    as (r' & H1 & H2 & _ & H3).
  exists r'. split; [exact H1|]. split; [exact H2|]. exact H3.
Defined.

(** ** What genre normalization keeps *)

Section FirstSeen.

Lemma lower_nonempty x : x <> "" -> lower x <> "".
Proof.
  intros Hx Hl. apply Hx, is_empty_true.
  rewrite <- is_empty_lower. by apply is_empty_true.
Qed.

Lemma normalize_loop_cons g rest seen :
  strip g <> "" -> lower (strip g) ∉ seen ->
  normalize_loop (g :: rest) seen []
  = strip g :: normalize_loop rest ({[lower (strip g)]} ∪ seen) [].
Proof.
  intros Hg%is_empty_false Hs. simpl. rewrite Hg.
  rewrite decide_False by done. by rewrite normalize_loop_out.
Qed.

Lemma normalize_loop_sublist genres seen :
  normalize_loop genres seen [] `sublist_of` map strip genres.
Proof.
  revert seen. induction genres as [|g rest IH]; intros seen; [done|].
  destruct (is_empty (strip g)) eqn:Eg.
  { simpl. rewrite Eg. apply sublist_cons, IH. }
  destruct (decide (lower (strip g) ∈ seen)) as [Hin|Hin].
  { simpl. rewrite Eg, decide_True by done. apply sublist_cons, IH. }
  rewrite normalize_loop_cons; [|by apply is_empty_false|done].
  apply sublist_skip, IH.
Qed.

Lemma normalize_loop_complete genres seen g :
  g ∈ genres -> strip g <> "" -> lower (strip g) ∉ seen ->
  lower (strip g) ∈ map lower (normalize_loop genres seen []).
Proof.
  revert seen. induction genres as [|g0 rest IH]; intros seen Hin Hg Hs.
  { by apply elem_of_nil in Hin. }
  destruct (is_empty (strip g0)) eqn:Eg.
  { simpl. rewrite Eg. apply elem_of_cons in Hin as [->|Hin].
    - by apply is_empty_true in Eg.
    - by apply IH. }
  destruct (decide (lower (strip g0) ∈ seen)) as [H0|H0].
  { simpl. rewrite Eg, decide_True by done.
    apply elem_of_cons in Hin as [->|Hin]; [done|]. by apply IH. }
  rewrite normalize_loop_cons; [|by apply is_empty_false|done].
  simpl. destruct (decide (lower (strip g) = lower (strip g0))) as [E|E].
  { rewrite E. apply list_elem_of_here. }
  apply list_elem_of_further.
  apply elem_of_cons in Hin as [->|Hin]; [done|].
  apply IH; [done|done|]. intros [H1%elem_of_singleton|H1]%elem_of_union; done.
Qed.

Lemma normalize_loop_first genres seen x :
  x ∈ normalize_loop genres seen [] ->
  exists pre g post,
    genres = (pre ++ g :: post)%list /\ strip g = x
    /\ Forall (fun h => lower (strip h) <> lower x) pre.
Proof.
  revert seen. induction genres as [|g0 rest IH]; intros seen Hin.
  { by apply elem_of_nil in Hin. }
  assert (forall s, x ∈ normalize_loop rest s [] -> x <> "" /\ lower x ∉ s)
    as Hout.
  { intros s Hx. destruct (normalize_loop_normal rest s) as (H1 & _ & H3).
    split.
    - by apply (proj1 (Forall_forall _ _) H1 x Hx).
    - by apply (proj1 (Forall_forall _ _) H3 x Hx). }
  destruct (is_empty (strip g0)) eqn:Eg.
  { simpl in Hin. rewrite Eg in Hin.
    destruct (IH _ Hin) as (pre & g & post & -> & Hg & Hpre).
    exists (g0 :: pre), g, post. split; [done|]. split; [done|].
    constructor; [|done]. apply is_empty_true in Eg. rewrite Eg. simpl.
    intros E. by apply (lower_nonempty x); [apply (Hout seen)|]. }
  destruct (decide (lower (strip g0) ∈ seen)) as [H0|H0].
  { simpl in Hin. rewrite Eg, decide_True in Hin by done.
    destruct (IH _ Hin) as (pre & g & post & -> & Hg & Hpre).
    exists (g0 :: pre), g, post. split; [done|]. split; [done|].
    constructor; [|done]. intros E. apply (Hout seen Hin). by rewrite <- E. }
  rewrite normalize_loop_cons in Hin; [|by apply is_empty_false|done].
  apply elem_of_cons in Hin as [->|Hin].
  { exists [], g0, rest. by repeat split. }
  destruct (IH _ Hin) as (pre & g & post & -> & Hg & Hpre).
  exists (g0 :: pre), g, post. split; [done|]. split; [done|].
  constructor; [|done]. intros E. apply (Hout _ Hin).
  apply elem_of_union_l, elem_of_singleton. by rewrite E.
Qed.

End FirstSeen.

(** X18. [_normalize_genres] keeps the first entry of every genre and the
    order of the input.  Its result is a sub-sequence of the trimmed input;
    every input entry that is not blank is there up to letter case; and
    every entry of the result is the trimmed form of an input entry before
    which no entry is equal to it up to letter case. *)
Theorem normalize_genres_keeps_first genres :
  _normalize_genres (Some genres) `sublist_of` map strip genres
  /\ (forall g, g ∈ genres -> strip g <> "" ->
        lower (strip g) ∈ map lower (_normalize_genres (Some genres)))
  /\ (forall x, x ∈ _normalize_genres (Some genres) ->
        exists pre g post,
          genres = (pre ++ g :: post)%list /\ strip g = x
          /\ Forall (fun h => lower (strip h) <> lower x) pre).
Proof.
  destruct genres as [|g0 rest].
  { split; [done|]. split; intros x Hx; by apply elem_of_nil in Hx. }
  change (_normalize_genres (Some (g0 :: rest)))
    with (normalize_loop (g0 :: rest) ∅ []).
  split; [apply normalize_loop_sublist|]. split.
  - intros g Hg Hne. by apply normalize_loop_complete.
  - intros x. apply normalize_loop_first.
Qed.

(** ** Searching and listing *)

Section SearchInListing.
Context {A : Type} (kf : A -> key).

Lemma sort_insert_front x l :
  StronglySorted (le_by kf) l ->
  match l with [] => True | y :: _ => key_ltb (kf y) (kf x) = false end ->
  sort_insert kf x l = x :: l.
Proof. destruct l as [|y l]; simpl; [done|]. by intros _ ->. Qed.

Lemma sort_insert_filter (p : A -> bool) x l :
  StronglySorted (le_by kf) l ->
  List.filter p (sort_insert kf x l)
  = if p x then sort_insert kf x (List.filter p l) else List.filter p l.
Proof.
  induction 1 as [|y l Hl IH Hy]; simpl.
  { by destruct (p x). }
  destruct (key_ltb (kf y) (kf x)) eqn:E; simpl.
  - rewrite IH. destruct (p y), (p x); simpl; by rewrite ?E.
  - destruct (p x) eqn:Px; simpl; [|done].
    destruct (p y) eqn:Py; simpl; [by rewrite E|].
    assert (Forall (fun z => key_ltb (kf z) (kf x) = false) l) as Hall.
    { eapply Forall_impl; [exact Hy|]. intros z Hz. simpl in Hz.
      destruct (key_ltb (kf z) (kf x)) eqn:Ez; [|done].
      apply key_ltb_lt in Ez.
      assert (key_le (kf x) (kf z)) as Hxz
        by (apply (key_le_trans _ (kf y)); [exact E|exact Hz]).
      apply key_le_alt in Hxz. rewrite key_compare_antisym, Ez in Hxz.
      by destruct Hxz. }
    clear -Hall. induction l as [|z l IH]; simpl; [done|].
    apply Forall_cons in Hall as [Hz Hall].
    destruct (p z); simpl; [by rewrite Hz|by apply IH].
Qed.

(** A stable sort and a filter commute. *)
Lemma py_sort_filter (p : A -> bool) l :
  py_sort kf (List.filter p l) = List.filter p (py_sort kf l).
Proof.
  induction l as [|x l IH]; simpl; [done|].
  fold (py_sort kf l). rewrite sort_insert_filter by apply py_sort_sorted.
  destruct (p x); simpl; by rewrite IH.
Qed.

End SearchInListing.

(** X19. A search only removes records from the listing: what
    [search_movies] returns is a sub-sequence of what [list_movies] returns
    for the same [only_available], so the filters drop records and neither
    add nor reorder them. *)
Theorem search_within_listing w query year genre director only_available :
  reachable w ->
  exists found w1 listed w2,
    search_movies query year genre director only_available w
    = (inr found, w1)
    /\ list_movies only_available w = (inr listed, w2)
    /\ map (dict_at w1) found `sublist_of` map (dict_at w2) listed.
Proof.
  intros Hw%reachable_wf. assert (alloc_ok w) as Ha by apply Hw.
  eexists _, _, _, _.
  split; [by apply search_movies_run|].
  split; [by apply list_movies_run|].
  rewrite !map_dict_at_block. apply (fmap_sublist (dict_at w)).
  set (K := keeps w _ _ _ _ _).
  set (V := fun m : addr => if only_available
                            then negb (m_borrowed (dict_at w m)) else true).
  replace (List.filter K (dict_values (_movies w)))
    with (List.filter K (List.filter V (dict_values (_movies w)))).
  - rewrite py_sort_filter. apply filter_sublist.
  - rewrite filter_filter_and. apply filter_ext. intros a.
    unfold K, V, keeps.
    by destruct (if only_available then _ else true).
Qed.

Lemma search_within_listing_witness :
  reachable sample_three
  /\ exists found w1 listed w2,
       search_movies (Some "a") None None None false sample_three
       = (inr found, w1)
       /\ list_movies false sample_three = (inr listed, w2)
       /\ map (dict_at w1) found `sublist_of` map (dict_at w2) listed.
Proof.
  assert (reachable sample_three) as Hr
    by (unfold sample_three; do 3 apply reachable_call;
        apply reachable_init).
  split; [exact Hr|].
  exact (search_within_listing sample_three (Some "a") None None None false
           Hr).
Defined.

(** ** The errors of a call *)

(** X20. Every error a call raises is of one of the four kinds, and its
    kind tells the cause.  Not-found is raised by a call on an id the store
    does not hold, and never by [add_movie]; the conflict by [borrow_movie]
    on a borrowed record only, and the invalid-state error by
    [return_movie] on a record that is not borrowed only; an invalid
    argument is a blank title or a year out of range in [add_movie] and
    [update_movie], or a blank borrower.  [list_movies] and
    [search_movies] raise nothing. *)
Theorem raised_error_kinds c w e w' :
  run c w = (inl e, w') ->
  match kind_of e with
  | Some NotFound =>
      match c with
      | Get i | Update _ i _ _ _ _ | Delete i | Borrow _ _ i _ | Return _ i =>
          stored w i = None
      | _ => False
      end
  | Some Conflict =>
      exists now1 now2 i b r,
        c = Borrow now1 now2 i b /\ strip b <> ""
        /\ stored w i = Some r /\ m_borrowed r = true
  | Some InvalidState =>
      exists now i r,
        c = Return now i /\ stored w i = Some r /\ m_borrowed r = false
  | Some InvalidArgument =>
      match c with
      | Add _ _ _ t y _ _ => strip t = "" \/ y < 1878 \/ 3000 < y
      | Update _ i t y _ _ =>
          stored w i <> None
          /\ ((exists s, t = Some s /\ strip s = "")
              \/ (exists v, y = Some v /\ (v < 1878 \/ 3000 < v)))
      | Borrow _ _ _ b => strip b = ""
      | _ => False
      end
  | None => False
  end.
Proof.
  assert (forall y, (y <? 1878) || (y >? 3000) = true ->
                    y < 1878 \/ 3000 < y) as Hrange.
  { intros y [Hy%Z.ltb_lt|Hy%Z.gtb_gt]%orb_true_iff; lia. }
  assert (forall i m, dict_get i (_movies w) = Some m -> stored w i <> None)
    as Hsome.
  { intros i m Hm Hn%stored_None. congruence. }
  destruct c; simpl; unfold bind at 1.
  - (* add *)
    destruct (is_empty (strip title)) eqn:Ht.
    { unfold add_movie. rewrite Ht. intros [= <- _]. simpl.
      left. by apply is_empty_true. }
    destruct ((year <? 1878) || (year >? 3000)) eqn:Hy.
    { unfold add_movie. rewrite Ht, Hy. intros [= <- _]. simpl.
      right. by apply Hrange. }
    by rewrite add_movie_ok.
  - (* get *)
    unfold get_movie, bind.
    destruct (dict_get movie_id (_movies w)) as [m|] eqn:Hm.
    + by rewrite (require_found _ _ m).
    + rewrite require_missing by done. intros [= <- _]. simpl.
      by apply stored_None.
  - (* list *)
    unfold list_movies.
    unfold bind at 1 2 3, gets. cbn [fst snd].
    match goal with
    | |- context [mapM _movie_public ?items w] =>
        by destruct (mapM_public_returns items w) as (l & w1 & ->)
    end.
  - (* search *)
    unfold search_movies.
    unfold bind at 1 2 3 4 5 6 7, gets. cbn [fst snd].
    match goal with
    | |- context [mapM _movie_public ?items w] =>
        by destruct (mapM_public_returns items w) as (l & w1 & ->)
    end.
  - (* update *)
    unfold update_movie, bind at 1.
    destruct (dict_get movie_id (_movies w)) as [m|] eqn:Hm;
      [rewrite (require_found _ _ m) by done
      |rewrite require_missing by done; intros [= <- _]; simpl;
       by apply stored_None].
    destruct title as [t|].
    + destruct (is_empty (strip t)) eqn:Ht.
      { run_monad. intros [= <- _]. simpl. split; [by apply (Hsome _ m)|].
        left. exists t. split; [done|]. by apply is_empty_true. }
      destruct year as [y|].
      * destruct ((y <? 1878) || (y >? 3000)) eqn:Hy.
        -- run_monad. intros [= <- _]. simpl.
           split; [by apply (Hsome _ m)|].
           right. exists y. split; [done|]. by apply Hrange.
        -- run_monad. by destruct genres, director.
      * run_monad. by destruct genres, director.
    + destruct year as [y|].
      * destruct ((y <? 1878) || (y >? 3000)) eqn:Hy.
        -- run_monad. intros [= <- _]. simpl.
           split; [by apply (Hsome _ m)|].
           right. exists y. split; [done|]. by apply Hrange.
        -- run_monad. by destruct genres, director.
      * run_monad. by destruct genres, director.
  - (* delete *)
    unfold delete_movie, bind.
    destruct (dict_get movie_id (_movies w)) as [m|] eqn:Hm.
    + by rewrite (require_found _ _ m).
    + rewrite require_missing by done. intros [= <- _]. simpl.
      by apply stored_None.
  - (* borrow *)
    unfold borrow_movie.
    destruct (is_empty (strip borrower)) eqn:Hb.
    { intros [= <- _]. simpl. by apply is_empty_true. }
    unfold bind at 1.
    destruct (dict_get movie_id (_movies w)) as [m|] eqn:Hm;
      [rewrite (require_found _ _ m) by done
      |rewrite require_missing by done; intros [= <- _]; simpl;
       by apply stored_None].
    run_monad. destruct (m_borrowed (dict_at w m)) eqn:Hr; [|done].
    intros [= <- _]. simpl.
    exists now1, now2, movie_id, borrower, (dict_at w m).
    split; [done|]. split; [by apply is_empty_false|].
    split; [|done]. apply stored_Some. by exists m.
  - (* return *)
    unfold return_movie, bind at 1.
    destruct (dict_get movie_id (_movies w)) as [m|] eqn:Hm;
      [rewrite (require_found _ _ m) by done
      |rewrite require_missing by done; intros [= <- _]; simpl;
       by apply stored_None].
    run_monad. destruct (m_borrowed (dict_at w m)) eqn:Hr; [done|].
    intros [= <- _]. simpl.
    exists now, movie_id, (dict_at w m).
    split; [done|]. split; [|done]. apply stored_Some. by exists m.
Qed.

Lemma raised_error_kinds_witness :
  run (Borrow "t8" "t9" "id1" "Bob") sample_borrowed
  = (inl (ValueError "Movie is already borrowed by Alice."), sample_borrowed)
  /\ exists now1 now2 i b r,
       Borrow "t8" "t9" "id1" "Bob" = Borrow now1 now2 i b /\ strip b <> ""
       /\ stored sample_borrowed i = Some r /\ m_borrowed r = true.
Proof.
  split; [reflexivity|].
  exact (raised_error_kinds (Borrow "t8" "t9" "id1" "Bob") sample_borrowed
           _ _ eq_refl).
Defined.
